(** * LPDDR4 PHY (litedram/phy/lpddr4/basephy.py): latency arithmetic,
      command arbitration, bit-lane transcoding and strobe framing.

    The development follows the source file top-down: the [Latency] value
    class, the parameter computation at the head of [LPDDR4PHY.__init__]
    (clock period, CL/CWL table, phases and latencies), then the clocked
    logic the constructor wires up (command arbiter, BitSlip lanes, read
    and write control paths).  Python integers are [Z]; Python floats are
    the kernel's binary64 floats; a migen [Signal] of width [w] is a [Z]
    read through [Z.testbit]; registers are explicit state advanced by one
    step function per clock tick. *)

From Stdlib Require Import String.
From Stdlib Require Import ZArith List Bool Lia Floats Sorted.
From Equations Require Import Equations.
Import ListNotations.

Local Open Scope Z_scope.

(* ===================================================================== *)
(** ** Python exceptions raised during construction *)
(* ===================================================================== *)

(** The constructor can leave through four places: the division computing
    [tck], the [assert databits % 8 == 0], the [raise ValueError] of
    [get_cl_cw], and the [assert wrtap >= 0]. *)
Inductive exn : Type :=
| ZeroDivisionError
| AssertionError_databits
| ValueError
| AssertionError_wrtap.

Abbreviation result A := (exn + A)%type.

Definition bind {A B : Type} (m : result A) (k : A -> result B) : result B :=
  match m with
  | inl e => inl e
  | inr a => k a
  end.

Notation "x <- m ;; k" := (bind m (fun x => k))
  (at level 61, m at next level, right associativity).
Notation "' p <- m ;; k" := (bind m (fun x => let p := x in k))
  (at level 61, p pattern, m at next level, right associativity).

Definition assert_ (b : bool) (e : exn) : result unit :=
  if b then inr tt else inl e.

(* ===================================================================== *)
(** ** class Latency *)
(* ===================================================================== *)

Record Latency : Type := mkLatency { sys : Z; sys8x : Z }.

(** [Latency.__init__(self, sys, sys8x=0)]: Python's [//] and [%] on
    integers are floor division and its remainder, as [Z.div], [Z.modulo]
    are for the positive divisor 8. *)
Definition Latency_init (sys sys8x : Z) : Latency :=
  mkLatency (sys + sys8x / 8) (sys8x mod 8).

(** [Latency.__add__] *)
Definition Latency_add (self other : Latency) : Latency :=
  Latency_init (sys self + sys other) (sys8x self + sys8x other).

(** Duration of a latency in sys8x ticks. *)
Definition Latency_ticks (l : Latency) : Z := 8 * sys l + sys8x l.

(* ===================================================================== *)
(** ** Parameters computed by [LPDDR4PHY.__init__] *)
(* ===================================================================== *)

Definition nphases : Z := 8.

(** *** get_cl_cw *)

(** The [OrderedDict] of the source, in insertion order. *)
Definition f_to_cl_cwl : list (float * (Z * Z)) :=
  [ ( 532e6%float, ( 6,  4));
    (1066e6%float, (10,  6));
    (1600e6%float, (14,  8));
    (2132e6%float, (20, 10));
    (2666e6%float, (24, 12));
    (3200e6%float, (28, 14));
    (3732e6%float, (32, 16));
    (4266e6%float, (36, 18)) ].

(** Python's [x >= y] on floats: IEEE comparison, false on a NaN. *)
Definition float_geb (x y : float) : bool := (y <=? x)%float.
Notation "x >=? y" := (float_geb x y) (at level 70, no associativity) : float_scope.

(** The loop test [tck >= 2/f] on binary64 values. *)
Definition threshold (f : float) : float := (2 / f)%float.
Definition reaches (tck f : float) : bool := (tck >=? threshold f)%float.

(** [for f, (cl, cwl) in items: if tck >= 2/f: return cl, cwl] followed by
    [raise ValueError]. *)
Fixpoint get_cl_cw_loop (items : list (float * (Z * Z))) (tck : float)
  : result (Z * Z) :=
  match items with
  | [] => inl ValueError
  | (f, (cl, cwl)) :: rest =>
      if reaches tck f then inr (cl, cwl) else get_cl_cw_loop rest tck
  end.

Definition get_cl_cw (tck : float) : result (Z * Z) :=
  get_cl_cw_loop f_to_cl_cwl tck.

(** No entry before the first reached one is reached. *)
Definition unreached (tck : float) (e : float * (Z * Z)) : Prop :=
  reaches tck (fst e) = false.

(** *** updated_latency *)

(** [while phase < 0: phase += nphases; sys_latency += 1] and the return of
    the pair.  The loop is recursion on the distance of [phase] below 0. *)
Equations? updated_latency (phase sys_latency : Z) : Z * Z
  by wf (Z.to_nat (- phase)) lt :=
  updated_latency phase sys_latency with Z_lt_dec phase 0 := {
    | left _ => updated_latency (phase + nphases) (sys_latency + 1);
    | right _ => (phase, sys_latency) }.
Proof. unfold nphases. lia. Qed.


(** *** Helpers of litedram.common *)

(** Modelled from the spec: [get_sys_latency] of litedram/common.py is not
    among the sources.  Section 4.2 step 2: CL and CWL are converted "into
    whole-slow-cycle latencies by dividing by the ratio", with "ceiling
    alignment". *)
Definition get_sys_latency_spec (nphases cas_latency : Z) : Z :=
  - ((- cas_latency) / nphases).

(** Modelled from the spec: [get_sys_phase] of litedram/common.py is not
    among the sources.  Section 4.2 step 3: the phase is the tick count
    "mod ratio measured back from the resolved ... whole-cycle latency". *)
Definition get_sys_phase_spec (nphases sys_latency cas_latency : Z) : Z :=
  (sys_latency * nphases - cas_latency) mod nphases.

(** *** The settings record and the constructor's arguments *)

Module PhySettings.
Record t : Type := mk {
  phytype       : string;
  memtype       : string;
  databits      : Z;
  dfi_databits  : Z;
  nranks        : Z;
  nphases       : Z;
  rdphase       : Z;   (* reset value of the [_rdphase] CSR *)
  wrphase       : Z;   (* reset value of the [_wrphase] CSR *)
  cl            : Z;
  cwl           : Z;
  read_latency  : Z;
  write_latency : Z;
  cmd_latency   : Z;
  cmd_delay     : option Z
}.
End PhySettings.

(** Arguments of [LPDDR4PHY.__init__]; [pads] is seen through
    [len(pads.dq)] and [len(pads.cs_n)] only. *)
Record Config : Type := mkConfig {
  pads_dq_len  : Z;
  pads_nranks  : Z;
  sys_clk_freq : float;
  ser_latency  : Latency;
  des_latency  : Latency;
  phytype      : string;
  masked_write : bool;
  cmd_delay    : option Z
}.

(** What the constructor leaves on [self] that later logic reads. *)
Record LPDDR4PHY : Type := mkPHY {
  phy_settings        : PhySettings.t;
  phy_cl_sys_latency  : Z;
  phy_cwl_sys_latency : Z;
  phy_wrtap           : Z
}.

Definition bitslip_cycles : Z := 1.
Definition cmd_latency : Z := 4.
Definition ca_latency : Z := 1.

Section Construction.

(** The two helpers imported from litedram.common, as the constructor
    calls them. *)
Variable get_sys_latency : Z -> Z -> Z.
Variable get_sys_phase : Z -> Z -> Z -> Z.

(** [tck = 1 / (nphases*sys_clk_freq)], the frequency being a float:
    Python raises on a zero divisor where IEEE division would return an
    infinity. *)
Definition compute_tck (sys_clk_freq : float) : result float :=
  let d := (8 * sys_clk_freq)%float in
  if (d =? 0)%float then inl ZeroDivisionError else inr (1 / d)%float.

(** Phases before normalisation (source lines 88-93). *)
Definition rdphase0 (cl : Z) (ser des : Latency) : Z :=
  get_sys_phase nphases (get_sys_latency nphases cl)
                (cl + cmd_latency + sys8x ser + sys8x des).

Definition wrphase0 (cwl : Z) : Z :=
  get_sys_phase nphases (get_sys_latency nphases cwl) (cwl + cmd_latency).

(** The pairs returned by the two calls of [updated_latency] (source lines
    102 and 103). *)
Definition wr_pair (cwl : Z) : Z * Z :=
  updated_latency (wrphase0 cwl) (get_sys_latency nphases cwl).

Definition rd_pair (cfg : Config) (cl : Z) : Z * Z :=
  updated_latency (rdphase0 cl (ser_latency cfg) (des_latency cfg))
                  (get_sys_latency nphases cl).

(** The constructor from line 87 on, for given [cl] and [cwl]. *)
Definition init_timing (cfg : Config) (cl cwl : Z) : result LPDDR4PHY :=
  let cl_sys_latency  := get_sys_latency nphases cl in
  let cwl_sys_latency := get_sys_latency nphases cwl in
  let rdphase := rdphase0 cl (ser_latency cfg) (des_latency cfg) in
  let wrphase := wrphase0 cwl in
  let '(wrphase, cwl_sys_latency) := updated_latency wrphase cwl_sys_latency in
  let '(rdphase, cl_sys_latency)  := updated_latency rdphase cl_sys_latency in
  let read_data_delay := ca_latency + sys (ser_latency cfg) + cl_sys_latency in
  let read_des_delay  := sys (des_latency cfg) + bitslip_cycles in
  let read_latency    := read_data_delay + read_des_delay in
  let write_latency   := cwl_sys_latency in
  let settings := PhySettings.mk
      (phytype cfg) "LPDDR4" (pads_dq_len cfg) (2 * pads_dq_len cfg)
      (pads_nranks cfg) nphases rdphase wrphase cl cwl
      read_latency write_latency cmd_latency (cmd_delay cfg) in
  let wrtap := cwl_sys_latency - 1 in
  _ <- assert_ (0 <=? wrtap) AssertionError_wrtap ;;
  inr (mkPHY settings cl_sys_latency cwl_sys_latency wrtap).

Definition LPDDR4PHY_init (cfg : Config) : result LPDDR4PHY :=
  tck <- compute_tck (sys_clk_freq cfg) ;;
  _ <- assert_ (pads_dq_len cfg mod 8 =? 0) AssertionError_databits ;;
  ' (cl, cwl) <- get_cl_cw tck ;;
  init_timing cfg cl cwl.

End Construction.

(** A configuration for the examples: 16 data bits, a 100 MHz system
    clock (so 800 MHz on the DRAM side) and no serializer or deserializer
    latency; and the PHY the constructor builds from it with the helpers
    [get_sys_latency_spec] and [get_sys_phase_spec]. *)
Definition example_cfg : Config :=
  mkConfig 16 1 100e6%float (Latency_init 0 0) (Latency_init 0 0)
           "LPDDR4PHY" true None.

Definition example_phy : LPDDR4PHY :=
  mkPHY (PhySettings.mk "LPDDR4PHY" "LPDDR4" 16 32 1 8 6 4 14 8 4 1 4 None)
        2 1 0.

(** [DoubleRateLPDDR4PHY.__init__] passes latencies enlarged by one
    serializer and one deserializer stage ([Serializer.LATENCY] and
    [Deserializer.LATENCY] are class constants of utils.py). *)
Definition double_rate_latency (l : Latency) (stage_latency : Z) : Latency :=
  Latency_add l (Latency_init stage_latency 0).

(* ===================================================================== *)
(** ** Signals *)
(* ===================================================================== *)

(** A migen signal of width [w] holds a value in [0, 2^w); an assignment
    keeps the low [w] bits. *)
Definition truncate (w x : Z) : Z := Z.land x (Z.ones w).

(** [x[a:b]] *)
Definition slice (x a b : Z) : Z := Z.land (Z.shiftr x a) (Z.ones (b - a)).

(** [Cat(lo, hi)] where [lo] has width [w]. *)
Definition Cat2 (w lo hi : Z) : Z := Z.lor (truncate w lo) (Z.shiftl hi w).

(** [Cat(b0, b1, ...)] of one-bit signals, first bit lowest. *)
Fixpoint Cat_bits (l : list bool) : Z :=
  match l with
  | [] => 0
  | b :: rest => Z.b2z b + 2 * Cat_bits rest
  end.

(** [Replicate(b, n)] *)
Definition Replicate (b : bool) (n : Z) : Z := if b then Z.ones n else 0.

(** [reduce(or_, l, 0)] on one-bit signals. *)
Definition reduce_or (l : list bool) : bool := fold_left orb l false.

(** [reduce(or_, l)] on signals: the first element starts the fold. *)
Definition reduce_lor (l : list Z) : Z :=
  match l with
  | [] => 0
  | x :: rest => fold_left Z.lor rest x
  end.

(** [l[a:b]] on a Python sequence, for [0 <= a]. *)
Definition list_slice {A : Type} (a b : nat) (l : list A) : list A :=
  firstn (b - a) (skipn a l).

(** A clocked circuit run from its reset state: the registers at tick [t]
    are those after [t] clock edges, the edge of tick [k] latching what
    the inputs were at tick [k]. *)
Fixpoint run {State Input : Type} (step : State -> Input -> State) (s0 : State) (inp : nat -> Input)
  (t : nat) : State :=
  match t with
  | O => s0
  | Datatypes.S k => step (run step s0 inp k) (inp k)
  end.

(* ===================================================================== *)
(** ** TappedDelayLine (litedram.common) *)
(* ===================================================================== *)

(** Modelled from the spec: the class [TappedDelayLine] of
    litedram/common.py is not among the sources.  Section 4.3: "Each
    fast-clock tick: shift all taps down by one position, tap 0 receives
    the signal's current value"; [output] is [taps[N-1]].  Taps reset to 0. *)
Definition TappedDelayLine_reset (ntaps : nat) : list bool := repeat false ntaps.

(** Modelled from the spec: the clock edge of [TappedDelayLine] (section
    4.3), tap 0 taking the input and every other tap its neighbour below. *)
Definition TappedDelayLine_step (taps : list bool) (input : bool) : list bool :=
  match taps with
  | [] => []
  | _ :: _ => input :: removelast taps
  end.

(** Modelled from the spec: [TappedDelayLine.output], "defined as
    [taps[N-1]] (oldest retained value)" (section 4.3). *)
Definition TappedDelayLine_output (taps : list bool) : bool := last taps false.

(** The taps at tick [t] of a line of [ntaps] taps driven by [input]. *)
Definition TappedDelayLine_taps (ntaps : nat) (input : nat -> bool) (t : nat)
  : list bool :=
  run TappedDelayLine_step (TappedDelayLine_reset ntaps) input t.

(* ===================================================================== *)
(** ** ConstBitSlip and BitSlip *)
(* ===================================================================== *)

(** Modelled from the spec: the class [ConstBitSlip] of
    litedram/phy/lpddr4/utils.py is not among the sources.  Section 4.5:
    the state is a buffer of the [(cycles+1)*dw] most recently seen input
    bits, "each tick: shift the new W-bit input into the buffer (newest at
    one end)", and the output is "W contiguous bits of the buffer starting
    at offset determined by S".  The constructor reads the buffer as
    [valids.r] with the newest word in the upper half (index
    [nphases+phase] is the slot of this tick's adapter [phase]), and it
    slips adapter [phase] "by [phase] bits" with [slp=phase], so the window
    for [slp] starts [slp] bits below the newest word. *)
Definition ConstBitSlip_next (dw cycles r i : Z) : Z :=
  Cat2 (cycles * dw) (Z.shiftr r dw) (truncate dw i).

(** Modelled from the spec: the output [o] of [ConstBitSlip] (section
    4.5), the [dw] bits of the buffer that start [slp] bits below the
    newest word. *)
Definition ConstBitSlip_o (dw cycles slp r : Z) : Z :=
  slice r (cycles * dw - slp) (cycles * dw - slp + dw).

(** The buffer of a ConstBitSlip with [cycles = 1] fed with the words [i],
    read bit by bit at tick [t]: the word of tick [t-2] below, the word of
    tick [t-1] above. *)
Definition buffer_bit (dw : Z) (i : nat -> Z) (t : nat) (j : Z) : bool :=
  if j <? dw then
    if (2 <=? t)%nat then Z.testbit (i (t - 2)%nat) j else false
  else if j <? 2 * dw then
    if (1 <=? t)%nat then Z.testbit (i (t - 1)%nat) (j - dw) else false
  else false.

(** Modelled from the spec: the class [BitSlip] of litedram/common.py is
    not among the sources.  Section 4.5: as above, with a rotation amount
    "externally controlled, in [0, W)" through "rotation-increment pulses",
    and a reset pulse on which "the internal buffer contents are
    cleared/reinitialized".  By the comment at source line 80 the latency
    ranges from [cycles] (rotation 0) to below [cycles + 1] ticks. *)
Record BitSlip : Type := mkBitSlip { bs_value : Z; bs_r : Z }.

(** Modelled from the spec: the state of [BitSlip] after a reset pulse
    (section 4.5), rotation 0 and a cleared buffer. *)
Definition BitSlip_reset : BitSlip := mkBitSlip 0 0.

(** Modelled from the spec: the output of [BitSlip] (section 4.5), the
    window of the buffer for the current rotation. *)
Definition BitSlip_o (dw cycles : Z) (st : BitSlip) : Z :=
  ConstBitSlip_o dw cycles (bs_value st) (bs_r st).

(** Modelled from the spec: the clock edge of [BitSlip] (section 4.5) for
    the control inputs [rst] and [slp] and the input word [i]. *)
Definition BitSlip_step (dw cycles : Z) (st : BitSlip) (inp : bool * bool * Z)
  : BitSlip :=
  let '(rst, slp, i) := inp in
  if rst then BitSlip_reset
  else mkBitSlip (if slp then (bs_value st + 1) mod (cycles * dw) else bs_value st)
                 (ConstBitSlip_next dw cycles (bs_r st) i).

(** A lane whose rotation was programmed to [rot] and is then left alone:
    the registers at tick [t] for the input words [i]. *)
Definition BitSlip_at (dw cycles rot : Z) (i : nat -> Z) (t : nat) : BitSlip :=
  run (BitSlip_step dw cycles) (mkBitSlip rot 0)
      (fun k => (false, false, i k)) t.

(** The data lanes use [dw = 2*nphases] and [cycles = bitslip_cycles]. *)
Definition dq_dw : Z := 2 * nphases.

(** Output of the write-side lane at tick [t]. *)
Definition dq_o (rot : Z) (wrdata : nat -> Z) (t : nat) : Z :=
  BitSlip_o dq_dw bitslip_cycles (BitSlip_at dq_dw bitslip_cycles rot wrdata t).

(** The read-side lane fed with what the write-side lane puts out. *)
Definition dq_loopback (rot_wr rot_rd : Z) (wrdata : nat -> Z) (t : nat) : Z :=
  dq_o rot_rd (dq_o rot_wr wrdata) t.

(** The rotation that brings a lane slipped by [rot] bits back onto a word
    boundary. *)
Definition inverse_rotation (rot : Z) : Z := (dq_dw - rot) mod dq_dw.

(** Whole ticks between a word entering the write-side lane and leaving the
    read-side lane set to the inverse rotation. *)
Definition loopback_ticks (rot : Z) : nat :=
  (Z.to_nat (2 * bitslip_cycles) + (if (rot =? 0)%Z then 0 else 1))%nat.

(** A stream that sends the word 1 at tick 0 and 0 afterwards. *)
Definition marker_word (k : nat) : Z := if Nat.eqb k 0 then 1 else 0.

(** The serial view of a stream of [dq_dw]-bit words: bit [n] of the
    stream is bit [n mod dq_dw] of word [n / dq_dw]; nothing was sent
    before tick 0. *)
Definition stream_bit (i : nat -> Z) (n : Z) : bool :=
  if n <? 0 then false
  else Z.testbit (i (Z.to_nat (n / dq_dw))) (n mod dq_dw).

(* ===================================================================== *)
(** ** LPDDR4 commands: the arbiter *)
(* ===================================================================== *)

(** What the constructor reads from a [DFIPhaseAdapter] every tick: the
    [valid] flag, the chip-select pattern over the command's 4 DRAM clocks
    and, for each of these clocks, the 6-bit CA word. *)
Record Adapter : Type := mkAdapter {
  valid : bool;
  cs    : Z;
  ca    : list Z
}.

Definition idle : Adapter := mkAdapter false 0 [0; 0; 0; 0].

(** The registers of the command path: the history of valids and, for each
    adapter, one ConstBitSlip for CS and one per CA bit. *)
Record Arbiter : Type := mkArbiter {
  valids_r : Z;
  cs_bs_r  : list Z;            (* indexed by phase *)
  ca_bs_r  : list (list Z)      (* indexed by phase, then by CA bit *)
}.

Definition phases : list nat := seq 0 (Z.to_nat nphases).
Definition ca_bits : list nat := seq 0 6.

Definition Arbiter_reset : Arbiter :=
  mkArbiter 0 (map (fun _ => 0) phases)
            (map (fun _ => map (fun _ => 0) ca_bits) phases).

(** [ca_bit_hist] of source line 208, concatenated: bit [bit] of the CA
    word of each of the command's 4 DRAM clocks, first clock lowest. *)
Definition ca_bit_hist (a : Adapter) (bit : nat) : Z :=
  Cat_bits (map (fun i => Z.testbit (nth i (ca a) 0) (Z.of_nat bit)) (seq 0 4)).

(** The clock edge: every ConstBitSlip shifts in its input. *)
Definition Arbiter_step (st : Arbiter) (adapters : list Adapter) : Arbiter :=
  mkArbiter
    (ConstBitSlip_next nphases 1 (valids_r st) (Cat_bits (map valid adapters)))
    (map (fun p => ConstBitSlip_next nphases 1 (nth p (cs_bs_r st) 0)
                                     (cs (nth p adapters idle)))
         phases)
    (map (fun p =>
            map (fun bit =>
                   ConstBitSlip_next nphases 1
                     (nth bit (nth p (ca_bs_r st) []) 0)
                     (ca_bit_hist (nth p adapters idle) bit))
                ca_bits)
         phases).

(** [valids_hist]: the loop of source lines 185-187 defines bit [i] from
    [valids.r[i]] and the bits of [valids_hist] below it. *)
Fixpoint valids_hist_upto (r : Z) (n : nat) : list bool :=
  match n with
  | O => []
  | Datatypes.S i =>
      let hist := valids_hist_upto r i in
      let was_valid_before := reduce_or (list_slice (Nat.max 0 (i - 3)) i hist) in
      hist ++ [Z.testbit r (Z.of_nat i) && negb was_valid_before]
  end.

Definition valids_hist (r : Z) : list bool :=
  valids_hist_upto r (Z.to_nat (2 * nphases)).

(** [allowed] of source line 193, for adapter [phase]. *)
Definition allowed (r : Z) (phase : nat) : bool :=
  let n := Z.to_nat nphases in
  negb (reduce_or (list_slice (n + phase - 3) (n + phase) (valids_hist r))).

(** [cs_bs.o & cs_mask] of adapter [phase]. *)
Definition cs_of_adapter (st : Arbiter) (phase : nat) : Z :=
  Z.land (ConstBitSlip_o nphases 1 (Z.of_nat phase) (nth phase (cs_bs_r st) 0))
         (Replicate (allowed (valids_r st) phase) nphases).

(** [ca_bs.o & ca_mask] of adapter [phase] for CA bit [bit]. *)
Definition ca_of_adapter (st : Arbiter) (bit phase : nat) : Z :=
  Z.land (ConstBitSlip_o nphases 1 (Z.of_nat phase)
                         (nth bit (nth phase (ca_bs_r st) []) 0))
         (Replicate (allowed (valids_r st) phase) nphases).

(** [self.out.cs] and [self.out.ca[bit]]. *)
Definition out_cs (st : Arbiter) : Z :=
  reduce_lor (map (cs_of_adapter st) phases).

Definition out_ca (st : Arbiter) (bit : nat) : Z :=
  reduce_lor (map (ca_of_adapter st bit) phases).

(** The registers at tick [t] when the adapters present [adapters k] at
    tick [k]. *)
Definition Arbiter_at (adapters : nat -> list Adapter) (t : nat) : Arbiter :=
  run Arbiter_step Arbiter_reset adapters t.


(** Adapter outputs for the examples: a command whose chip select is high
    on its first and third DRAM clock, with four CA words. *)
Definition cmd : Adapter := mkAdapter true 5 [63; 21; 42; 7].

(** The adapters of one tick, with [cmd] on the phases [ps]. *)
Definition cmds_on (ps : list nat) : list Adapter :=
  map (fun p => if existsb (Nat.eqb p) ps then cmd else idle) phases.

(** Commands on phases 5 and 6 of tick 0, nothing afterwards: the second
    starts one DRAM clock after the first. *)
Definition overlapping_5_6 (k : nat) : list Adapter :=
  if Nat.eqb k 0 then cmds_on [5; 6]%nat else cmds_on [].

(** A command on phase 6 of tick 0 and one on phase 5 of tick 1: seven DRAM
    clocks apart. *)
Definition apart_6_then_5 (k : nat) : list Adapter :=
  if Nat.eqb k 0 then cmds_on [6]%nat
  else if Nat.eqb k 1 then cmds_on [5]%nat else cmds_on [].

(** The command on phase 6 of tick 0 alone. *)
Definition alone_6 (k : nat) : list Adapter :=
  if Nat.eqb k 0 then cmds_on [6]%nat else cmds_on [].

(** Three commands: A on phase 6 of tick 0, then B on phase 0 and C on
    phase 2 of tick 1 (2 and 4 DRAM clocks after A). *)
Definition three_commands (k : nat) : list Adapter :=
  if Nat.eqb k 0 then cmds_on [6]%nat
  else if Nat.eqb k 1 then cmds_on [0; 2]%nat else cmds_on [].

(* ===================================================================== *)
(** ** Read and write control paths *)
(* ===================================================================== *)

(** The DFI fields the control paths read from one phase. *)
Record DFIPhase : Type := mkDFIPhase {
  rddata_en : bool;
  wrdata_en : bool
}.

(** [reduce(or_, [dfi.phases[i].rddata_en for i in range(nphases)])] *)
Definition rddata_en_any (dfi : list DFIPhase) : bool :=
  match map rddata_en dfi with
  | [] => false
  | x :: rest => fold_left orb rest x
  end.

Definition wrdata_en_any (dfi : list DFIPhase) : bool :=
  match map wrdata_en dfi with
  | [] => false
  | x :: rest => fold_left orb rest x
  end.

Section ControlPaths.

(** The constructed PHY fixes the two delay-line lengths. *)
Variable read_latency : nat.
Variable wrtap : nat.

(** Inputs over time: the DFI phases and the [_wlevel_en] register. *)
Variable dfi : nat -> list DFIPhase.
Variable wlevel_en : nat -> bool.

(** [rddata_en = TappedDelayLine(signal=..., ntaps=read_latency)] *)
Definition rddata_en_taps (t : nat) : list bool :=
  TappedDelayLine_taps read_latency (fun k => rddata_en_any (dfi k)) t.

(** [phase.rddata_valid] of every phase (source line 313). *)
Definition rddata_valid (phase : nat) (t : nat) : bool :=
  TappedDelayLine_output (rddata_en_taps t) || wlevel_en t.

(** [wrdata_en = TappedDelayLine(signal=..., ntaps=wrtap + 2)] *)
Definition wrdata_en_input (t : nat) : bool := wrdata_en_any (dfi t).

Definition wrdata_en_taps (t : nat) : list bool :=
  TappedDelayLine_taps (wrtap + 2) wrdata_en_input t.

(** [wrdata_en_tap(i)]: tap -1 is the undelayed input. *)
Definition wrdata_en_tap (i : Z) (t : nat) : bool :=
  if i =? -1 then wrdata_en_input t
  else nth (Z.to_nat i) (wrdata_en_taps t) false.

Definition dq_oe (t : nat) : bool :=
  nth wrtap (wrdata_en_taps t) false.

Definition dqs_preamble (t : nat) : bool :=
  wrdata_en_tap (Z.of_nat wrtap - 1) t && negb (wrdata_en_tap (Z.of_nat wrtap + 0) t).

Definition dqs_postamble (t : nat) : bool :=
  wrdata_en_tap (Z.of_nat wrtap + 1) t && negb (wrdata_en_tap (Z.of_nat wrtap + 0) t).

Definition dqs_oe (t : nat) : bool :=
  wlevel_en t || (dqs_preamble t || dq_oe t || dqs_postamble t).

End ControlPaths.

(** DFI inputs with read enables on phase 1 at ticks 0 and 5. *)
Definition reads_dfi (k : nat) : list DFIPhase :=
  map (fun p => mkDFIPhase ((Nat.eqb k 0 || Nat.eqb k 5) && Nat.eqb p 1) false)
      (seq 0 8).

(** DFI inputs with a single write enable, on phase 3 at tick [t0]. *)
Definition pulse_dfi (t0 : nat) (k : nat) : list DFIPhase :=
  map (fun p => mkDFIPhase false (Nat.eqb k t0 && Nat.eqb p 3)) (seq 0 8).

(* ===================================================================== *)
(** ** Further inputs of the command path *)
(* ===================================================================== *)

(** The adapters' outputs when adapter [p] presents [c] at tick [t0] and
    every other adapter, and adapter [p] at every other tick, is idle. *)
Definition lone_command (p t0 : nat) (c : Adapter) (k : nat) : list Adapter :=
  map (fun q => if Nat.eqb q p && Nat.eqb k t0 then c else idle) phases.

(** The valid bits of one tick as the word [valids.i]. *)
Definition valids_i (adapters : list Adapter) : Z := Cat_bits (map valid adapters).

(** Where the 8-bit word [x], slipped by [p] bits, is found on the pads
    when it entered a ConstBitSlip at tick [t0]: its low [8-p] bits at the
    top of the word of tick [t0+1], the rest at the bottom of the word of
    tick [t0+2]. *)
Definition slipped_word (x : Z) (p t0 t : nat) : Z :=
  if Nat.eqb t (t0 + 1) then truncate nphases (Z.shiftl x (Z.of_nat p))
  else if Nat.eqb t (t0 + 2)
       then Z.shiftr (truncate nphases x) (nphases - Z.of_nat p)
       else 0.

(* ===================================================================== *)
(** ** class DoubleRateLPDDR4PHY: the call of the base constructor *)
(* ===================================================================== *)

(** The keyword arguments [DoubleRateLPDDR4PHY.__init__] hands to
    [super().__init__]: those it was given, with [ser_latency] and
    [des_latency] enlarged by [Latency(sys=Serializer.LATENCY)] and
    [Latency(sys=Deserializer.LATENCY)].  The two class constants belong
    to utils.py and are arguments here. *)
Definition DoubleRate_kwargs (Serializer_LATENCY Deserializer_LATENCY : Z)
  (cfg : Config) : Config :=
  mkConfig (pads_dq_len cfg) (pads_nranks cfg) (sys_clk_freq cfg)
           (double_rate_latency (ser_latency cfg) Serializer_LATENCY)
           (double_rate_latency (des_latency cfg) Deserializer_LATENCY)
           (phytype cfg) (masked_write cfg) (cmd_delay cfg).

(** The base PHY a [DoubleRateLPDDR4PHY] is built on. *)
Definition DoubleRateLPDDR4PHY_init
  (get_sys_latency : Z -> Z -> Z) (get_sys_phase : Z -> Z -> Z -> Z)
  (Serializer_LATENCY Deserializer_LATENCY : Z) (cfg : Config)
  : result LPDDR4PHY :=
  LPDDR4PHY_init get_sys_latency get_sys_phase
                 (DoubleRate_kwargs Serializer_LATENCY Deserializer_LATENCY cfg).

(** The settings of [s] with [read_latency] moved up by [d]. *)
Definition with_read_latency_plus (d : Z) (s : PhySettings.t) : PhySettings.t :=
  PhySettings.mk (PhySettings.phytype s) (PhySettings.memtype s)
                 (PhySettings.databits s) (PhySettings.dfi_databits s)
                 (PhySettings.nranks s) (PhySettings.nphases s)
                 (PhySettings.rdphase s) (PhySettings.wrphase s)
                 (PhySettings.cl s) (PhySettings.cwl s)
                 (PhySettings.read_latency s + d) (PhySettings.write_latency s)
                 (PhySettings.cmd_latency s) (PhySettings.cmd_delay s).

(** The highest frequency of the table, [4266e6]. *)
Definition f_max : float := 4266e6%float.

(* ===================================================================== *)
(** ** Further inputs of the write path *)
(* ===================================================================== *)

(** DFI inputs with write enables on phase 3 during the [n] ticks from
    [t0] on. *)
Definition burst_dfi (t0 n : nat) (k : nat) : list DFIPhase :=
  map (fun p => mkDFIPhase false
                           (Nat.leb t0 k && Nat.ltb k (t0 + n) && Nat.eqb p 3))
      (seq 0 8).

(* ===================================================================== *)
(** ** DQ: from DFI phases to lanes and back *)
(* ===================================================================== *)

(** The input of the write-side BitSlip of data lane [bit] (source lines
    225-228 and 234): [Cat] of
    [dfi.phases[i//2].wrdata[i%2 * databits + bit]] for [i] in
    [range(2*nphases)].  [wrdata] lists the phases' [wrdata] words. *)
Definition dq_lane_i (databits : nat) (wrdata : list Z) (bit : nat) : Z :=
  Cat_bits (map (fun i => Z.testbit (nth (i / 2) wrdata 0)
                                    (Z.of_nat (i mod 2 * databits + bit)))
                (seq 0 (Z.to_nat (2 * nphases)))).

(** The [rddata] word of DFI phase [phase] (source lines 248-249): the
    loops over [bit] and [i] drive bit [i%2 * databits + bit] of phase
    [i//2] from bit [i] of lane [bit]'s read-side output [dq_i_bs], so bit
    [j] of the word, [j < 2*databits], comes from lane [j % databits], bit
    [2*phase + j / databits].  [dq_i_bs] lists the lanes' outputs. *)
Definition dfi_rddata (databits : nat) (dq_i_bs : list Z) (phase : nat) : Z :=
  Cat_bits (map (fun j => Z.testbit (nth (j mod databits) dq_i_bs 0)
                                    (Z.of_nat (2 * phase + j / databits)))
                (seq 0 (2 * databits))).

(* ===================================================================== *)
(** ** class LPDDR4Output and the wiring of DoubleRateLPDDR4PHY *)
(* ===================================================================== *)

(** An attribute of [LPDDR4Output] is a [Signal], kept as its width, or a
    Python list of them. *)
Inductive Pads : Type :=
| Sig (width : Z)
| Sigs (widths : list Z).

(** [len(x)]: the width of a signal, the length of a list. *)
Definition len (x : Pads) : Z :=
  match x with
  | Sig w => w
  | Sigs ws => Z.of_nat (length ws)
  end.

(** What iterating over [x] yields: the elements of a list, the one-bit
    slices of a signal. *)
Definition iter (x : Pads) : list Pads :=
  match x with
  | Sig w => repeat (Sig 1) (Z.to_nat w)
  | Sigs ws => map Sig ws
  end.

Definition isinstance_list (x : Pads) : bool :=
  match x with
  | Sig _ => false
  | Sigs _ => true
  end.

(** [LPDDR4Output.__init__]: the attributes in the order they are set,
    which is the order [vars(self.out)] lists them in; [Signal()] has
    width 1. *)
Definition LPDDR4Output (nphases databits : Z) : list (string * Pads) :=
  [ ("clk",     Sig (2 * nphases));
    ("cke",     Sig nphases);
    ("odt",     Sig nphases);
    ("reset_n", Sig nphases);
    ("cs",      Sig nphases);
    ("ca",      Sigs (repeat nphases 6));
    ("dmi_o",   Sigs (repeat (2 * nphases) 2));
    ("dmi_i",   Sigs (repeat (2 * nphases) 2));
    ("dmi_oe",  Sig 1);
    ("dq_o",    Sigs (repeat (2 * nphases) (Z.to_nat databits)));
    ("dq_i",    Sigs (repeat (2 * nphases) (Z.to_nat databits)));
    ("dq_oe",   Sig 1);
    ("dqs_o",   Sigs (repeat (2 * nphases) 2));
    ("dqs_i",   Sigs (repeat (2 * nphases) 2));
    ("dqs_oe",  Sig 1) ]%string.

(** [getattr(out, name)] *)
Fixpoint getattr (out : list (string * Pads)) (name : string) : option Pads :=
  match out with
  | [] => None
  | (n, x) :: rest => if String.eqb n name then Some x else getattr rest name
  end.

(** [name.endswith(suffix)] *)
Definition endswith (name suffix : string) : bool :=
  let n := String.length name in
  let m := String.length suffix in
  (m <=? n)%nat && String.eqb (substring (n - m) m name) suffix.

(** What the loop of [DoubleRateLPDDR4PHY.__init__] instantiates for one
    pair of signals. *)
Inductive Wiring : Type :=
| Delayed (old_width new_width : Z)
| Serializer (i_dw o_dw : Z)
| Deserializer (i_dw o_dw : Z).

(** [ser(i, o)] and [des(i, o)]: [None] is the failing [assert]. *)
Definition ser (i o : Pads) : option Wiring :=
  if len o =? len i / 2 then Some (Serializer (len i) (len o)) else None.

Definition des (i o : Pads) : option Wiring :=
  if len i =? len o / 2 then Some (Deserializer (len i) (len o)) else None.

(** A loop body that may fail, run over a list. *)
Fixpoint for_each {A B : Type} (f : A -> option B) (l : list A)
  : option (list B) :=
  match l with
  | [] => Some []
  | x :: rest =>
      match f x with
      | None => None
      | Some y =>
          match for_each f rest with
          | None => None
          | Some ys => Some (y :: ys)
          end
      end
  end.

(** [apply(fn, i, o)] *)
Definition apply_ (fn : Pads -> Pads -> option Wiring) (i o : Pads)
  : option (list Wiring) :=
  let '(il, ol) := if negb (isinstance_list i) then ([i], [o])
                   else (iter i, iter o) in
  for_each (fun io => fn (fst io) (snd io)) (combine il ol).

(** The body of [for name in vars(self.out)]; a missing attribute of
    [self._out] is [None] too. *)
Definition wire (old_out : list (string * Pads)) (attr : string * Pads)
  : option (list Wiring) :=
  let '(name, new) := attr in
  match getattr old_out name with
  | None => None
  | Some old =>
      if endswith name "_oe" then Some [Delayed (len old) (len new)]
      else if endswith name "_i" then apply_ des new old
      else apply_ ser old new
  end.

(** The whole loop, for a base PHY of [nphases] phases: [self._out] is the
    base PHY's [LPDDR4Output(nphases, databits)] and [self.out] is
    [LPDDR4Output(nphases//2, databits)]. *)
Definition DoubleRate_wiring (nphases databits : Z) : option (list Wiring) :=
  let _out := LPDDR4Output nphases databits in
  let out := LPDDR4Output (nphases / 2) databits in
  option_map (@concat Wiring) (for_each (wire _out) out).

(* ===================================================================== *)
(** * Properties *)
(* ===================================================================== *)

(** ** Latency *)

Lemma Latency_init_canonical (s t : Z) :
  0 <= sys8x (Latency_init s t) < 8.
Proof. unfold Latency_init, sys8x. apply Z.mod_pos_bound. lia. Qed.

Lemma Latency_init_ticks (s t : Z) :
  Latency_ticks (Latency_init s t) = 8 * s + t.
Proof.
  unfold Latency_ticks, Latency_init, sys, sys8x.
  pose proof (Z.div_mod t 8 ltac:(lia)). lia.
Qed.

Lemma Latency_add_ticks (a b : Latency) :
  Latency_ticks (Latency_add a b) = Latency_ticks a + Latency_ticks b.
Proof.
  unfold Latency_add. rewrite Latency_init_ticks. unfold Latency_ticks. lia.
Qed.

(** Two canonical latencies of the same duration are the same record. *)
Lemma Latency_canonical_inj (a b : Latency) :
  0 <= sys8x a < 8 -> 0 <= sys8x b < 8 ->
  Latency_ticks a = Latency_ticks b -> a = b.
Proof.
  destruct a as [sa ta], b as [sb tb]; unfold Latency_ticks, sys, sys8x.
  intros Ha Hb E.
  assert (sa = sb) by lia. assert (ta = tb) by lia. congruence.
Qed.

(** C7: Latency addition is commutative and associative, and every value
    built by the constructor or by addition is canonical: its [sys8x] lies
    in [0, 8), the overflow being carried into [sys] (the duration in ticks
    is unchanged).  This holds for all integers, the non-negative ones
    included. *)
Theorem Latency_add_comm_assoc_canonical :
  forall (a b c : Latency) (s t : Z),
    Latency_add a b = Latency_add b a /\
    Latency_add (Latency_add a b) c = Latency_add a (Latency_add b c) /\
    0 <= sys8x (Latency_init s t) < 8 /\
    0 <= sys8x (Latency_add a b) < 8 /\
    sys (Latency_init s t) = s + t / 8 /\
    Latency_ticks (Latency_init s t) = 8 * s + t /\
    Latency_ticks (Latency_add a b) = Latency_ticks a + Latency_ticks b.
Proof.
  intros a b c s t.
  repeat split;
    try (apply Z.mod_pos_bound; lia);
    try apply Latency_init_ticks; try apply Latency_add_ticks.
  - unfold Latency_add. f_equal; lia.
  - apply Latency_canonical_inj;
      try (unfold Latency_add; apply Latency_init_canonical).
    rewrite !Latency_add_ticks. lia.
Qed.

Example Latency_add_ex :
  Latency_add (Latency_init 1 5) (Latency_init 0 12) = mkLatency 3 1.
Proof. reflexivity. Qed.

(** ** updated_latency *)

Lemma updated_latency_iterations (phase sys_latency : Z) :
  exists k : Z,
    0 <= k /\
    (0 <= phase -> k = 0) /\
    updated_latency phase sys_latency
    = (phase + nphases * k, sys_latency + k) /\
    0 <= phase + nphases * k /\
    (phase < nphases -> phase + nphases * k < nphases).
Proof.
  funelim (updated_latency phase sys_latency).
  - destruct H as (k & Hk & Hk0 & E & Hge & Hlt).
    exists (k + 1). rewrite E. unfold nphases in *.
    repeat split; try lia.
    f_equal; lia.
  - exists 0. unfold nphases. repeat split; try lia.
    f_equal; lia.
Qed.

(** ** The constructor *)

Lemma get_cl_cw_loop_raises (items : list (float * (Z * Z))) (tck : float) (e : exn) :
  get_cl_cw_loop items tck = inl e -> e = ValueError.
Proof.
  induction items as [| [f [a b]] rest IH]; cbn [get_cl_cw_loop].
  - congruence.
  - destruct (reaches tck f); [intros; discriminate | exact IH].
Qed.

Section ConstructionFacts.

Variable get_sys_latency : Z -> Z -> Z.
Variable get_sys_phase : Z -> Z -> Z -> Z.

Abbreviation init := (LPDDR4PHY_init get_sys_latency get_sys_phase).
Abbreviation timing := (init_timing get_sys_latency get_sys_phase).
Abbreviation wr := (wr_pair get_sys_latency get_sys_phase).
Abbreviation rd := (rd_pair get_sys_latency get_sys_phase).

Lemma init_timing_unfold (cfg : Config) (cl cwl : Z) :
  timing cfg cl cwl =
  if 0 <=? snd (wr cwl) - 1
  then inr (mkPHY
              (PhySettings.mk
                 (phytype cfg) "LPDDR4" (pads_dq_len cfg) (2 * pads_dq_len cfg)
                 (pads_nranks cfg) nphases
                 (fst (rd cfg cl)) (fst (wr cwl)) cl cwl
                 (ca_latency + sys (ser_latency cfg) + snd (rd cfg cl)
                  + (sys (des_latency cfg) + bitslip_cycles))
                 (snd (wr cwl)) cmd_latency (cmd_delay cfg))
              (snd (rd cfg cl)) (snd (wr cwl))
              (snd (wr cwl) - 1))
  else inl AssertionError_wrtap.
Proof.
  unfold init_timing, wr_pair, rd_pair.
  destruct (updated_latency (wrphase0 _ _ cwl) _) as [wp ws].
  destruct (updated_latency (rdphase0 _ _ cl _ _) _) as [rp rs].
  cbn [fst snd]. destruct (0 <=? ws - 1); reflexivity.
Qed.

Lemma init_inr (cfg : Config) (phy : LPDDR4PHY) :
  init cfg = inr phy <->
  exists tck cl cwl,
    compute_tck (sys_clk_freq cfg) = inr tck /\
    pads_dq_len cfg mod 8 = 0 /\
    get_cl_cw tck = inr (cl, cwl) /\
    timing cfg cl cwl = inr phy.
Proof.
  unfold LPDDR4PHY_init, bind, assert_. split.
  - destruct (compute_tck (sys_clk_freq cfg)) as [e | tck]; [discriminate |].
    destruct (pads_dq_len cfg mod 8 =? 0) eqn:Hd; [| discriminate].
    destruct (get_cl_cw tck) as [e | [cl cwl]] eqn:Hc; [discriminate |].
    intros H. exists tck, cl, cwl. repeat split; auto. now apply Z.eqb_eq.
  - intros (tck & cl & cwl & -> & Hd & -> & H).
    apply Z.eqb_eq in Hd. now rewrite Hd.
Qed.


(** C5: whenever the constructor returns, the settings hold
    [read_latency = ca_latency + ser_latency.sys + cl_sys_latency
                    + des_latency.sys + bitslip_cycles]
    with [ca_latency = 1], [bitslip_cycles = 1] and [cl_sys_latency] the
    whole-cycle CL latency returned by [updated_latency], and
    [write_latency] is the whole-cycle CWL latency returned by
    [updated_latency]; CL and CWL are those of the table. *)
Theorem settings_latency_totals (cfg : Config) (phy : LPDDR4PHY) :
  init cfg = inr phy ->
  exists tck cl cwl,
    compute_tck (sys_clk_freq cfg) = inr tck /\
    get_cl_cw tck = inr (cl, cwl) /\
    PhySettings.cl (phy_settings phy) = cl /\
    PhySettings.cwl (phy_settings phy) = cwl /\
    PhySettings.read_latency (phy_settings phy)
    = 1 + sys (ser_latency cfg) + snd (rd cfg cl) + sys (des_latency cfg) + 1 /\
    PhySettings.write_latency (phy_settings phy) = snd (wr cwl).
Proof.
  intros H. apply init_inr in H. destruct H as (tck & cl & cwl & Ht & _ & Hc & H).
  exists tck, cl, cwl. rewrite init_timing_unfold in H.
  destruct (0 <=? snd (wr cwl) - 1); [| discriminate].
  injection H as <-. cbn. unfold ca_latency, bitslip_cycles.
  repeat split; auto; lia.
Qed.





End ConstructionFacts.


Example updated_latency_ex1 : updated_latency (-1) 0 = (7, 1).
Proof. reflexivity. Qed.
Example updated_latency_ex2 : updated_latency (-19) 2 = (5, 5).
Proof. reflexivity. Qed.
Example updated_latency_ex3 : updated_latency 3 2 = (3, 2).
Proof. reflexivity. Qed.

(** *** The constructor with the helpers as the spec describes them *)



Example init_example :
  LPDDR4PHY_init get_sys_latency_spec get_sys_phase_spec example_cfg
  = inr example_phy.
Proof. vm_compute. reflexivity. Qed.

Example init_example_wrtap_negative :
  LPDDR4PHY_init (fun _ _ => 0) get_sys_phase_spec example_cfg
  = inl AssertionError_wrtap.
Proof. vm_compute. reflexivity. Qed.

Example init_example_borrowed_cycle :
  exists phy,
    LPDDR4PHY_init get_sys_latency_spec (fun _ _ _ => -3) example_cfg = inr phy /\
    PhySettings.rdphase (phy_settings phy) = 5 /\
    PhySettings.read_latency (phy_settings phy) = 5 /\
    PhySettings.write_latency (phy_settings phy) = 2.
Proof. eexists. vm_compute. repeat split. Qed.

Lemma settings_latency_totals_witness :
  LPDDR4PHY_init get_sys_latency_spec get_sys_phase_spec example_cfg
  = inr example_phy /\
  exists tck cl cwl,
    compute_tck (sys_clk_freq example_cfg) = inr tck /\
    get_cl_cw tck = inr (cl, cwl) /\
    PhySettings.cl (phy_settings example_phy) = cl /\
    PhySettings.cwl (phy_settings example_phy) = cwl /\
    PhySettings.read_latency (phy_settings example_phy)
    = 1 + sys (ser_latency example_cfg)
      + snd (rd_pair get_sys_latency_spec get_sys_phase_spec example_cfg cl)
      + sys (des_latency example_cfg) + 1 /\
    PhySettings.write_latency (phy_settings example_phy)
    = snd (wr_pair get_sys_latency_spec get_sys_phase_spec cwl).
Proof.
  split.
  - vm_compute. reflexivity.
  - apply (settings_latency_totals get_sys_latency_spec get_sys_phase_spec
                                   example_cfg example_phy).
    vm_compute. reflexivity.
Defined.



(** ** get_cl_cw *)

(** *** Order of binary64 values *)

Lemma SFltb_SFleb_false (x a b : spec_float) :
  SFltb x a = true -> SFleb a b = true -> SFleb b x = false.
Proof.
  unfold SFltb, SFleb.
  destruct x as [sx | sx | | sx mx ex], a as [sa | sa | | sa ma ea],
           b as [sb | sb | | sb mb eb]; cbn;
    repeat match goal with s : bool |- _ => destruct s end; cbn;
    try discriminate; try reflexivity.
  all: rewrite ?Pos.compare_cont_spec; cbn.
  all: destruct (Z.compare_spec ex ea), (Z.compare_spec ea eb),
         (Z.compare_spec eb ex); subst; cbn; try discriminate; try reflexivity;
       try lia.
  all: destruct (Pos.compare_spec mx ma), (Pos.compare_spec ma mb),
         (Pos.compare_spec mb mx); subst; cbn; try discriminate; try reflexivity;
       try lia.
Qed.

Lemma float_lt_le_false (x a b : float) :
  (x <? a)%float = true -> (a <=? b)%float = true -> (b <=? x)%float = false.
Proof. rewrite ltb_spec, !leb_spec. apply SFltb_SFleb_false. Qed.

Lemma float_lt_not_le (x a : float) :
  (x <? a)%float = true -> (a <=? x)%float = false.
Proof.
  intros H. apply (float_lt_le_false x a a H).
  rewrite ltb_spec in H. rewrite leb_spec.
  unfold SFltb in H. unfold SFleb.
  destruct (Prim2SF x) as [sx | sx | | sx mx ex],
           (Prim2SF a) as [sa | sa | | sa ma ea]; cbn in *;
    repeat match goal with s : bool |- _ => destruct s end; cbn in *;
    try discriminate; try reflexivity.
  all: rewrite ?Pos.compare_cont_spec; cbn.
  all: rewrite Z.compare_refl, Pos.compare_refl; reflexivity.
Qed.

(** *** The loop returns the first entry that is reached *)

Lemma get_cl_cw_loop_first (pre post : list (float * (Z * Z)))
      (e : float * (Z * Z)) (tck : float) :
  Forall (unreached tck) pre ->
  reaches tck (fst e) = true ->
  get_cl_cw_loop (pre ++ e :: post) tck = inr (snd e).
Proof.
  intros Hpre He. induction Hpre as [| [f [a b]] pre Hx _ IH]; cbn [app get_cl_cw_loop].
  - destruct e as [f [a b]]; cbn [fst snd] in *. now rewrite He.
  - unfold unreached in Hx; cbn [fst] in Hx. now rewrite Hx.
Qed.

Lemma get_cl_cw_loop_inr (items : list (float * (Z * Z))) (tck : float)
      (cl cwl : Z) :
  get_cl_cw_loop items tck = inr (cl, cwl) ->
  exists pre f post,
    items = pre ++ (f, (cl, cwl)) :: post /\
    reaches tck f = true /\
    Forall (unreached tck) pre.
Proof.
  induction items as [| [f [a b]] rest IH]; cbn [get_cl_cw_loop].
  - intros H; discriminate H.
  - destruct (reaches tck f) eqn:E.
    + intros H; injection H as -> ->. exists [], f, rest. repeat split; auto.
    + intros H. destruct (IH H) as (pre & f' & post & -> & Hr & Hpre).
      exists ((f, (a, b)) :: pre), f', post. repeat split; auto.
Qed.

Lemma get_cl_cw_loop_inl (items : list (float * (Z * Z))) (tck : float) :
  get_cl_cw_loop items tck = inl ValueError <-> Forall (unreached tck) items.
Proof.
  induction items as [| [f [a b]] rest IH]; cbn [get_cl_cw_loop].
  - split; auto.
  - destruct (reaches tck f) eqn:E.
    + split; [intros H; discriminate H |].
      intros H. inversion H as [| x l Hx Hl]; subst. unfold unreached in Hx.
      cbn [fst] in Hx. congruence.
    + rewrite IH. split.
      * intros H. constructor; auto.
      * intros H. now inversion H.
Qed.

(** A period below the threshold of [lo] reaches no entry whose threshold
    is at least that of [lo]. *)
Lemma get_cl_cw_loop_between (pre post : list (float * (Z * Z)))
      (lo hi : float * (Z * Z)) (tck : float) :
  Forall (fun e => (threshold (fst lo) <=? threshold (fst e))%float = true) pre ->
  (tck <? threshold (fst lo))%float = true ->
  reaches tck (fst hi) = true ->
  get_cl_cw_loop (pre ++ lo :: hi :: post) tck = inr (snd hi).
Proof.
  intros Hpre Hlo Hhi.
  replace (pre ++ lo :: hi :: post) with ((pre ++ [lo]) ++ hi :: post)
    by (rewrite <- app_assoc; reflexivity).
  apply get_cl_cw_loop_first; [| exact Hhi].
  apply Forall_app. split.
  - eapply Forall_impl; [| exact Hpre].
    intros e He. unfold unreached, reaches.
    exact (float_lt_le_false _ _ _ Hlo He).
  - constructor; [| constructor]. unfold unreached, reaches.
    now apply float_lt_not_le.
Qed.

(** *** The table *)

(** Every entry's threshold is at most the thresholds of the entries
    before it: the table is in ascending order of frequency. *)
Lemma f_to_cl_cwl_thresholds (pre post : list (float * (Z * Z)))
      (lo : float * (Z * Z)) :
  f_to_cl_cwl = pre ++ lo :: post ->
  Forall (fun e => (threshold (fst lo) <=? threshold (fst e))%float = true) pre.
Proof.
  unfold f_to_cl_cwl. intros H.
  repeat (destruct pre as [| ? pre];
          [ injection H as <- _;
            repeat (constructor; [vm_compute; reflexivity |]); constructor
          | injection H as <- H ]).
  destruct pre; discriminate H.
Qed.

Lemma f_to_cl_cwl_ascending :
  StronglySorted (fun a b => (fst a <? fst b)%float = true) f_to_cl_cwl.
Proof.
  unfold f_to_cl_cwl.
  repeat (constructor; [| repeat (constructor; [vm_compute; reflexivity |]); constructor]).
  constructor.
Qed.

(** C3: [get_cl_cw] returns the (CL, CWL) of the first entry, in the
    table's ascending frequency order, whose threshold [2/f] is reached
    ([tck >= 2/f]); at an entry's own threshold period it returns that
    entry; for a period at or above the threshold of an entry and strictly
    below that of the entry before it, it returns the former (of the
    entries reached, the one of lowest frequency); and it raises
    [ValueError], and nothing else, exactly when no threshold is reached. *)
Theorem get_cl_cw_first_reached (tck : float) :
  StronglySorted (fun a b => (fst a <? fst b)%float = true) f_to_cl_cwl /\
  (forall cl cwl,
      get_cl_cw tck = inr (cl, cwl) <->
      exists pre f post,
        f_to_cl_cwl = pre ++ (f, (cl, cwl)) :: post /\
        (tck >=? 2 / f)%float = true /\
        Forall (fun e => (tck >=? 2 / fst e)%float = false) pre) /\
  (get_cl_cw tck = inl ValueError <->
   Forall (fun e => (tck >=? 2 / fst e)%float = false) f_to_cl_cwl) /\
  (forall e, get_cl_cw tck = inl e -> e = ValueError) /\
  Forall (fun e => get_cl_cw (2 / fst e)%float = inr (snd e)) f_to_cl_cwl /\
  (forall pre lo hi post,
      f_to_cl_cwl = pre ++ lo :: hi :: post ->
      (2 / fst hi <=? tck)%float = true ->
      (tck <? 2 / fst lo)%float = true ->
      get_cl_cw tck = inr (snd hi)).
Proof.
  split; [exact f_to_cl_cwl_ascending |].
  split; [| split; [| split; [| split]]].
  - intros cl cwl. split.
    + apply get_cl_cw_loop_inr.
    + intros (pre & f & post & E & Hf & Hpre).
      unfold get_cl_cw. rewrite E.
      apply (get_cl_cw_loop_first pre post (f, (cl, cwl)) tck Hpre Hf).
  - apply get_cl_cw_loop_inl.
  - apply get_cl_cw_loop_raises.
  - unfold f_to_cl_cwl.
    repeat (constructor; [vm_compute; reflexivity |]). constructor.
  - intros pre lo hi post E Hhi Hlo.
    unfold get_cl_cw. rewrite E.
    apply get_cl_cw_loop_between; auto.
    apply (f_to_cl_cwl_thresholds pre (hi :: post) lo E).
Qed.

Example get_cl_cw_800MHz : get_cl_cw (1 / 800e6)%float = inr (14, 8).
Proof. vm_compute. reflexivity. Qed.
Example get_cl_cw_slow : get_cl_cw (1 / 100e6)%float = inr (6, 4).
Proof. vm_compute. reflexivity. Qed.
Example get_cl_cw_too_fast : get_cl_cw (1 / 2500e6)%float = inl ValueError.
Proof. vm_compute. reflexivity. Qed.
Example get_cl_cw_nan : get_cl_cw nan = inl ValueError.
Proof. vm_compute. reflexivity. Qed.

Lemma get_cl_cw_first_reached_witness :
  get_cl_cw (1 / 700e6)%float = inr (14, 8).
Proof.
  apply (proj2 (proj2 (proj2 (proj2 (proj2
           (get_cl_cw_first_reached (1 / 700e6)%float)))))
           [(532e6%float, (6, 4))] (1066e6%float, (10, 6))
           (1600e6%float, (14, 8))
           [(2132e6%float, (20, 10)); (2666e6%float, (24, 12));
            (3200e6%float, (28, 14)); (3732e6%float, (32, 16));
            (4266e6%float, (36, 18))]).
  - reflexivity.
  - vm_compute. reflexivity.
  - vm_compute. reflexivity.
Defined.

(** ** TappedDelayLine *)

Lemma TappedDelayLine_step_length (taps : list bool) (input : bool) :
  length (TappedDelayLine_step taps input) = length taps.
Proof.
  destruct taps as [| x l]; [reflexivity |].
  unfold TappedDelayLine_step.
  change (length (input :: removelast (x :: l))) with (S (length (removelast (x :: l)))).
  rewrite removelast_firstn_len, length_firstn. cbn [length]. lia.
Qed.

Lemma TappedDelayLine_taps_length (ntaps : nat) (input : nat -> bool) (t : nat) :
  length (TappedDelayLine_taps ntaps input t) = ntaps.
Proof.
  unfold TappedDelayLine_taps. induction t as [| t IH]; cbn [run].
  - apply repeat_length.
  - now rewrite TappedDelayLine_step_length.
Qed.

Lemma nth_removelast {A : Type} (l : list A) (k : nat) (d : A) :
  (S k < length l)%nat -> nth k (removelast l) d = nth k l d.
Proof.
  revert k. induction l as [| x l IH]; intros k H; [cbn in H; lia |].
  destruct l as [| y l]; [cbn in H; lia |].
  change (removelast (x :: y :: l)) with (x :: removelast (y :: l)).
  destruct k as [| k]; [reflexivity |].
  cbn [nth]. apply IH. cbn [length] in *. lia.
Qed.

Lemma last_nth {A : Type} (l : list A) (d : A) :
  last l d = nth (length l - 1) l d.
Proof.
  induction l as [| x l IH]; [reflexivity |].
  destruct l as [| y l]; [reflexivity |].
  change (last (x :: y :: l) d) with (last (y :: l) d). rewrite IH.
  cbn [length]. replace (S (S (length l)) - 1)%nat with (S (S (length l) - 1)) by lia.
  reflexivity.
Qed.

(** Tap [k] holds what the input was [k+1] ticks ago, and the reset value
    before that. *)
Lemma TappedDelayLine_tap (ntaps : nat) (input : nat -> bool) (t k : nat) :
  (k < ntaps)%nat ->
  nth k (TappedDelayLine_taps ntaps input t) false
  = if (k <? t)%nat then input (t - 1 - k)%nat else false.
Proof.
  revert k. induction t as [| t IH]; intros k Hk.
  - unfold TappedDelayLine_taps, TappedDelayLine_reset; cbn [run].
    rewrite nth_repeat. reflexivity.
  - unfold TappedDelayLine_taps in *; cbn [run].
    pose proof (TappedDelayLine_taps_length ntaps input t) as Hlen.
    unfold TappedDelayLine_taps in Hlen.
    destruct (run TappedDelayLine_step (TappedDelayLine_reset ntaps) input t)
      as [| x l] eqn:E; [cbn in Hlen; lia |].
    unfold TappedDelayLine_step.
    destruct k as [| k].
    + cbn [nth]. replace (S t - 1 - 0)%nat with t by lia. reflexivity.
    + cbn [nth]. rewrite nth_removelast by (rewrite Hlen; lia).
      rewrite IH by lia.
      destruct (Nat.ltb_spec k t), (Nat.ltb_spec (S k) (S t)); try lia; auto.
      f_equal. lia.
Qed.

Lemma TappedDelayLine_output_delay (ntaps : nat) (input : nat -> bool) (t : nat) :
  (0 < ntaps)%nat ->
  TappedDelayLine_output (TappedDelayLine_taps ntaps input t)
  = if (ntaps <=? t)%nat then input (t - ntaps)%nat else false.
Proof.
  intros H. unfold TappedDelayLine_output.
  rewrite last_nth, TappedDelayLine_taps_length, TappedDelayLine_tap by lia.
  destruct (Nat.ltb_spec (ntaps - 1) t), (Nat.leb_spec ntaps t); try lia; auto.
  f_equal. lia.
Qed.

Example TappedDelayLine_ex :
  map (fun t => TappedDelayLine_taps 3 (fun k => Nat.eqb k 1) t) [0; 1; 2; 3; 4; 5]%nat
  = [ [false; false; false]; [false; false; false]; [true; false; false];
      [false; true; false]; [false; false; true]; [false; false; false] ].
Proof. reflexivity. Qed.

(** ** Read control path *)

Lemma fold_left_orb_true (l : list bool) : fold_left orb l true = true.
Proof. induction l as [| x l IH]; cbn; auto. Qed.

Lemma fold_left_orb_existsb (l : list bool) (b : bool) :
  fold_left orb l b = b || existsb (fun x => x) l.
Proof.
  revert b. induction l as [| x l IH]; intros b; cbn.
  - now rewrite orb_false_r.
  - rewrite IH. now rewrite orb_assoc.
Qed.

Lemma rddata_en_any_existsb (dfi : list DFIPhase) :
  rddata_en_any dfi = existsb rddata_en dfi.
Proof.
  unfold rddata_en_any. destruct dfi as [| p l]; [reflexivity |].
  cbn [map]. rewrite fold_left_orb_existsb. cbn [existsb]. f_equal.
  induction l as [| q l IH]; cbn; congruence.
Qed.

(** C10: in a constructed PHY ([read_latency] taps, at least one), at
    every tick and for every phase, [rddata_valid] is asserted when
    [_wlevel_en] is set, whatever the read enables were; and when it is
    clear, [rddata_valid] is the OR of the phases' [rddata_en] of exactly
    [read_latency] ticks earlier (0, the reset value of the taps, during
    the first [read_latency] ticks). *)
Theorem rddata_valid_wlevel (read_latency : nat) (dfi : nat -> list DFIPhase)
        (wlevel_en : nat -> bool) (phase t : nat) :
  (0 < read_latency)%nat ->
  (wlevel_en t = true -> rddata_valid read_latency dfi wlevel_en phase t = true) /\
  (wlevel_en t = false ->
   rddata_valid read_latency dfi wlevel_en phase t
   = if (read_latency <=? t)%nat
     then existsb rddata_en (dfi (t - read_latency)%nat)
     else false).
Proof.
  intros H. unfold rddata_valid, rddata_en_taps.
  rewrite TappedDelayLine_output_delay by exact H.
  split; intros ->.
  - apply orb_true_r.
  - rewrite orb_false_r. now rewrite rddata_en_any_existsb.
Qed.

(** ** Write control path: DQ/DQS framing *)

(** [wrdata_en_tap(i)] is the input of [i+1] ticks ago, for the indices the
    constructor uses. *)
Lemma wrdata_en_tap_delay (wrtap : nat) (dfi : nat -> list DFIPhase) (d t : nat) :
  (d <= wrtap + 2)%nat ->
  wrdata_en_tap wrtap dfi (Z.of_nat d - 1) t
  = if (d <=? t)%nat then wrdata_en_input dfi (t - d)%nat else false.
Proof.
  intros Hd. unfold wrdata_en_tap.
  destruct (Z.eqb_spec (Z.of_nat d - 1) (-1)) as [E | E].
  - assert (d = 0)%nat by lia. subst d. cbn [Nat.leb].
    now rewrite Nat.sub_0_r.
  - unfold wrdata_en_taps. rewrite TappedDelayLine_tap by lia.
    replace (Z.to_nat (Z.of_nat d - 1)) with (d - 1)%nat by lia.
    destruct (Nat.ltb_spec (d - 1) t), (Nat.leb_spec d t); try lia; auto.
    f_equal. lia.
Qed.

Lemma dq_oe_delay (wrtap : nat) (dfi : nat -> list DFIPhase) (t : nat) :
  dq_oe wrtap dfi t
  = if (wrtap + 1 <=? t)%nat then wrdata_en_input dfi (t - (wrtap + 1))%nat
    else false.
Proof.
  unfold dq_oe, wrdata_en_taps. rewrite TappedDelayLine_tap by lia.
  destruct (Nat.ltb_spec wrtap t), (Nat.leb_spec (wrtap + 1) t); try lia; auto.
  f_equal. lia.
Qed.

Lemma dqs_preamble_delay (wrtap : nat) (dfi : nat -> list DFIPhase) (t : nat) :
  dqs_preamble wrtap dfi t
  = (if (wrtap <=? t)%nat then wrdata_en_input dfi (t - wrtap)%nat else false)
    && negb (dq_oe wrtap dfi t).
Proof.
  unfold dqs_preamble.
  replace (Z.of_nat wrtap + 0) with (Z.of_nat (wrtap + 1) - 1) by lia.
  rewrite !wrdata_en_tap_delay by lia. now rewrite dq_oe_delay.
Qed.

Lemma dqs_postamble_delay (wrtap : nat) (dfi : nat -> list DFIPhase) (t : nat) :
  dqs_postamble wrtap dfi t
  = (if (wrtap + 2 <=? t)%nat then wrdata_en_input dfi (t - (wrtap + 2))%nat
     else false)
    && negb (dq_oe wrtap dfi t).
Proof.
  unfold dqs_postamble.
  replace (Z.of_nat wrtap + 0) with (Z.of_nat (wrtap + 1) - 1) by lia.
  replace (Z.of_nat wrtap + 1) with (Z.of_nat (wrtap + 2) - 1) by lia.
  rewrite !wrdata_en_tap_delay by lia. now rewrite dq_oe_delay.
Qed.

(** C6: when the OR of the phases' [wrdata_en] is a pulse of exactly one
    tick, at tick [t0], then [dq_oe] (tap [wrtap], the input of [wrtap+1]
    ticks earlier) is asserted at tick [t0+wrtap+1] and at no other,
    [dqs_preamble] at the tick before it and at no other, [dqs_postamble]
    at the tick after it and at no other; no two of the three are asserted
    at the same tick; and with write leveling off [dqs_oe] is asserted on
    exactly these three ticks. *)
Theorem strobe_framing_single_pulse (wrtap : nat) (dfi : nat -> list DFIPhase)
        (wlevel_en : nat -> bool) (t0 t : nat) :
  (forall k, wrdata_en_any (dfi k) = Nat.eqb k t0) ->
  (dqs_preamble wrtap dfi t = true <-> t = (t0 + wrtap)%nat) /\
  (dq_oe wrtap dfi t = true <-> t = (t0 + wrtap + 1)%nat) /\
  (dqs_postamble wrtap dfi t = true <-> t = (t0 + wrtap + 2)%nat) /\
  dqs_preamble wrtap dfi t && dq_oe wrtap dfi t = false /\
  dq_oe wrtap dfi t && dqs_postamble wrtap dfi t = false /\
  dqs_preamble wrtap dfi t && dqs_postamble wrtap dfi t = false /\
  (wlevel_en t = false ->
   (dqs_oe wrtap dfi wlevel_en t = true
    <-> (t0 + wrtap <= t <= t0 + wrtap + 2)%nat)).
Proof.
  intros Hpulse.
  assert (Hoe : dq_oe wrtap dfi t = Nat.eqb t (t0 + wrtap + 1)).
  { rewrite dq_oe_delay. unfold wrdata_en_input. rewrite Hpulse.
    destruct (Nat.leb_spec (wrtap + 1) t), (Nat.eqb_spec (t - (wrtap + 1)) t0),
      (Nat.eqb_spec t (t0 + wrtap + 1)); auto; lia. }
  assert (Hpre : dqs_preamble wrtap dfi t = Nat.eqb t (t0 + wrtap)).
  { rewrite dqs_preamble_delay, Hoe. unfold wrdata_en_input. rewrite Hpulse.
    destruct (Nat.leb_spec wrtap t), (Nat.eqb_spec (t - wrtap) t0),
      (Nat.eqb_spec t (t0 + wrtap + 1)), (Nat.eqb_spec t (t0 + wrtap));
      cbn; auto; lia. }
  assert (Hpost : dqs_postamble wrtap dfi t = Nat.eqb t (t0 + wrtap + 2)).
  { rewrite dqs_postamble_delay, Hoe. unfold wrdata_en_input. rewrite Hpulse.
    destruct (Nat.leb_spec (wrtap + 2) t), (Nat.eqb_spec (t - (wrtap + 2)) t0),
      (Nat.eqb_spec t (t0 + wrtap + 1)), (Nat.eqb_spec t (t0 + wrtap + 2));
      cbn; auto; lia. }
  unfold dqs_oe. rewrite Hoe, Hpre, Hpost.
  rewrite !Nat.eqb_eq.
  do 3 (split; [tauto |]).
  split; [| split; [| split]].
  - destruct (Nat.eqb_spec t (t0 + wrtap)), (Nat.eqb_spec t (t0 + wrtap + 1));
      auto; lia.
  - destruct (Nat.eqb_spec t (t0 + wrtap + 1)), (Nat.eqb_spec t (t0 + wrtap + 2));
      auto; lia.
  - destruct (Nat.eqb_spec t (t0 + wrtap)), (Nat.eqb_spec t (t0 + wrtap + 2));
      auto; lia.
  - intros ->. cbn [orb]. rewrite !orb_true_iff, !Nat.eqb_eq. lia.
Qed.

Example strobe_framing_ex :
  map (fun t => (dqs_preamble 1 (pulse_dfi 2) t, dq_oe 1 (pulse_dfi 2) t,
                 dqs_postamble 1 (pulse_dfi 2) t)) [2; 3; 4; 5; 6]%nat
  = [ (false, false, false); (true, false, false); (false, true, false);
      (false, false, true); (false, false, false) ].
Proof. reflexivity. Qed.

(** ** Signals: bit-level facts *)

Lemma testbit_truncate (w x j : Z) :
  0 <= w -> 0 <= j ->
  Z.testbit (truncate w x) j = Z.testbit x j && (j <? w).
Proof.
  intros Hw Hj. unfold truncate.
  now rewrite Z.land_spec, Z.testbit_ones_nonneg.
Qed.

Lemma testbit_slice (x a b j : Z) :
  0 <= a <= b -> 0 <= j ->
  Z.testbit (slice x a b) j = Z.testbit x (j + a) && (j <? b - a).
Proof.
  intros Hab Hj. unfold slice.
  rewrite Z.land_spec, Z.shiftr_spec, Z.testbit_ones_nonneg by lia.
  reflexivity.
Qed.

Lemma testbit_Cat2 (w lo hi j : Z) :
  0 <= w -> 0 <= j ->
  Z.testbit (Cat2 w lo hi) j
  = if j <? w then Z.testbit lo j else Z.testbit hi (j - w).
Proof.
  intros Hw Hj. unfold Cat2.
  rewrite Z.lor_spec, testbit_truncate, Z.shiftl_spec by lia.
  destruct (Z.ltb_spec j w).
  - rewrite (Z.testbit_neg_r hi (j - w)) by lia. now rewrite andb_true_r, orb_false_r.
  - now rewrite andb_false_r.
Qed.

Lemma testbit_ConstBitSlip_next (dw r i j : Z) :
  0 < dw -> 0 <= j ->
  Z.testbit (ConstBitSlip_next dw 1 r i) j
  = if j <? dw then Z.testbit r (j + dw)
    else Z.testbit i (j - dw) && (j - dw <? dw).
Proof.
  intros Hdw Hj. unfold ConstBitSlip_next.
  rewrite testbit_Cat2 by lia. rewrite Z.mul_1_l.
  destruct (Z.ltb_spec j dw).
  - rewrite Z.shiftr_spec by lia. reflexivity.
  - rewrite testbit_truncate by lia. reflexivity.
Qed.

Lemma testbit_ConstBitSlip_o (dw slp r k : Z) :
  0 <= slp <= dw -> 0 <= k ->
  Z.testbit (ConstBitSlip_o dw 1 slp r) k
  = Z.testbit r (k + dw - slp) && (k <? dw).
Proof.
  intros Hs Hk. unfold ConstBitSlip_o. rewrite Z.mul_1_l.
  rewrite testbit_slice by lia.
  f_equal; [f_equal; lia |].
  destruct (Z.ltb_spec k (dw - slp + dw - (dw - slp))), (Z.ltb_spec k dw);
    auto; lia.
Qed.

Lemma testbit_run_ConstBitSlip (dw : Z) (i : nat -> Z) (t : nat) (j : Z) :
  0 < dw -> 0 <= j ->
  Z.testbit (run (ConstBitSlip_next dw 1) 0 i t) j = buffer_bit dw i t j.
Proof.
  intros Hdw Hj. unfold buffer_bit.
  destruct t as [| [| t]]; cbn [run Nat.leb].
  - rewrite Z.testbit_0_l. now destruct (j <? dw), (j <? 2 * dw).
  - rewrite testbit_ConstBitSlip_next, Z.testbit_0_l by lia.
    destruct (Z.ltb_spec j dw), (Z.ltb_spec j (2 * dw)), (Z.ltb_spec (j - dw) dw);
      try lia; auto using andb_true_r, andb_false_r.
  - rewrite !testbit_ConstBitSlip_next by lia.
    replace (S (S t) - 2)%nat with t by lia.
    replace (S (S t) - 1)%nat with (S t) by lia.
    destruct (Z.ltb_spec j dw), (Z.ltb_spec j (2 * dw)), (Z.ltb_spec (j - dw) dw),
      (Z.ltb_spec (j + dw) dw), (Z.ltb_spec (j + dw - dw) dw);
      try lia; rewrite ?andb_true_r, ?andb_false_r; auto.
    f_equal; lia.
Qed.

(** ** BitSlip lanes *)

Lemma BitSlip_at_value (dw rot : Z) (i : nat -> Z) (t : nat) :
  bs_value (BitSlip_at dw 1 rot i t) = rot.
Proof.
  unfold BitSlip_at. induction t as [| t IH]; cbn [run]; [reflexivity |].
  unfold BitSlip_step at 1. cbn [bs_value]. exact IH.
Qed.

Lemma BitSlip_at_r (dw rot : Z) (i : nat -> Z) (t : nat) :
  bs_r (BitSlip_at dw 1 rot i t) = run (ConstBitSlip_next dw 1) 0 i t.
Proof.
  unfold BitSlip_at. induction t as [| t IH]; cbn [run]; [reflexivity |].
  unfold BitSlip_step at 1. cbn [bs_r]. now rewrite IH.
Qed.

(** A lane with rotation [rot] delays the serial stream by [dq_dw + rot] bits. *)
Lemma dq_o_stream (rot : Z) (i : nat -> Z) (n : Z) :
  0 <= rot < dq_dw ->
  stream_bit (dq_o rot i) n = stream_bit i (n - dq_dw - rot).
Proof.
  intros HS. unfold stream_bit.
  destruct (Z.ltb_spec n 0) as [Hn | Hn].
  { destruct (Z.ltb_spec (n - dq_dw - rot) 0); [reflexivity | unfold dq_dw, nphases in *; lia]. }
  unfold dq_o, BitSlip_o. rewrite BitSlip_at_value, BitSlip_at_r.
  assert (Hk : 0 <= n mod dq_dw < dq_dw) by (apply Z.mod_pos_bound; reflexivity).
  assert (Hq : 0 <= n / dq_dw) by (apply Z.div_pos; [lia | reflexivity]).
  pose proof (Z.div_mod n dq_dw ltac:(discriminate)) as Hn'.
  set (k := n mod dq_dw) in *. set (q := n / dq_dw) in *.
  unfold bitslip_cycles.
  rewrite testbit_ConstBitSlip_o by lia.
  rewrite testbit_run_ConstBitSlip by (try reflexivity; lia).
  replace (k <? dq_dw) with true by (symmetry; apply Z.ltb_lt; lia).
  rewrite andb_true_r. unfold buffer_bit.
  destruct (Z.ltb_spec (k + dq_dw - rot) dq_dw) as [Hlt | Hge].
  - (* the bit comes from the older word *)
    assert (Hge0 : 0 <= k + dq_dw - rot) by lia.
    assert (E : n - dq_dw - rot = dq_dw * (q - 2) + (k + dq_dw - rot)) by lia.
    destruct (Nat.leb_spec 2 (Z.to_nat q)) as [Ht | Ht].
    + destruct (Z.ltb_spec (n - dq_dw - rot) 0); [unfold dq_dw, nphases in *; lia |].
      rewrite <- (Z.div_unique _ _ _ _ (or_introl (conj Hge0 Hlt)) E).
      rewrite <- (Z.mod_unique _ _ _ _ (or_introl (conj Hge0 Hlt)) E).
      do 2 f_equal. lia.
    + destruct (Z.ltb_spec (n - dq_dw - rot) 0); [reflexivity |].
      unfold dq_dw, nphases in *; lia.
  - (* the bit comes from the newer word *)
    replace (k + dq_dw - rot <? 2 * dq_dw) with true
      by (symmetry; apply Z.ltb_lt; lia).
    assert (Hge0 : 0 <= k - rot) by lia.
    assert (Hlt : k - rot < dq_dw) by lia.
    assert (E : n - dq_dw - rot = dq_dw * (q - 1) + (k - rot)) by lia.
    destruct (Nat.leb_spec 1 (Z.to_nat q)) as [Ht | Ht].
    + destruct (Z.ltb_spec (n - dq_dw - rot) 0); [unfold dq_dw, nphases in *; lia |].
      rewrite <- (Z.div_unique _ _ _ _ (or_introl (conj Hge0 Hlt)) E).
      rewrite <- (Z.mod_unique _ _ _ _ (or_introl (conj Hge0 Hlt)) E).
      f_equal; [f_equal |]; lia.
    + destruct (Z.ltb_spec (n - dq_dw - rot) 0); [reflexivity |].
      unfold dq_dw, nphases in *; lia.
Qed.

Lemma stream_bit_word (f : nat -> Z) (m k : Z) :
  0 <= k < dq_dw ->
  stream_bit f (dq_dw * m + k)
  = if m <? 0 then false else Z.testbit (f (Z.to_nat m)) k.
Proof.
  intros Hk. unfold stream_bit.
  destruct (Z.ltb_spec m 0), (Z.ltb_spec (dq_dw * m + k) 0);
    try reflexivity; try (unfold dq_dw, nphases in *; lia).
  rewrite <- (Z.div_unique _ _ _ _ (or_introl Hk) eq_refl).
  rewrite <- (Z.mod_unique _ _ _ _ (or_introl Hk) eq_refl).
  reflexivity.
Qed.

Lemma testbit_above (w x k : Z) :
  0 <= x < 2 ^ w -> w <= k -> Z.testbit x k = false.
Proof.
  intros Hx Hk. destruct (Z.ltb_spec w 0) as [Hw | Hw].
  - rewrite Z.pow_neg_r in Hx by lia. lia.
  - rewrite <- (Z.mod_small x (2 ^ w)) by lia.
    apply Z.mod_pow2_bits_high. lia.
Qed.

Lemma inverse_rotation_sum (rot : Z) :
  0 <= rot < dq_dw ->
  rot + inverse_rotation rot = if rot =? 0 then 0 else dq_dw.
Proof.
  intros HS. unfold inverse_rotation. destruct (Z.eqb_spec rot 0) as [-> | Hne].
  - reflexivity.
  - rewrite Z.mod_small by lia. lia.
Qed.

Lemma inverse_rotation_range (rot : Z) :
  0 <= inverse_rotation rot < dq_dw.
Proof. apply Z.mod_pos_bound. reflexivity. Qed.

(** C2 (amended): with rotation [rot] in [0, dq_dw) on the write-side
    BitSlip and the inverse rotation on the read-side one, the looped-back
    stream is the input stream delayed by a whole number of ticks, namely
    [2*cycles] ticks when [rot = 0] and [2*cycles + 1] ticks otherwise (each
    BitSlip adds from [cycles] up to [cycles + 1] ticks); before that the
    output is the buffers' reset value 0. *)
Theorem dq_loopback_delay (rot : Z) (wrdata : nat -> Z) (t : nat) :
  0 <= rot < dq_dw ->
  (forall k, 0 <= wrdata k < 2 ^ dq_dw) ->
  dq_loopback rot (inverse_rotation rot) wrdata t
  = if (loopback_ticks rot <=? t)%nat then wrdata (t - loopback_ticks rot)%nat
    else 0.
Proof.
  intros HS Hw.
  pose proof (inverse_rotation_range rot) as HR.
  pose proof (inverse_rotation_sum rot HS) as Hsum.
  apply Z.bits_inj'. intros k Hk.
  destruct (Z.ltb_spec k dq_dw) as [Hlt | Hge].
  - transitivity (stream_bit (dq_loopback rot (inverse_rotation rot) wrdata)
                             (dq_dw * Z.of_nat t + k)).
    { rewrite stream_bit_word by lia.
      destruct (Z.ltb_spec (Z.of_nat t) 0); [lia |]. now rewrite Nat2Z.id. }
    unfold dq_loopback. rewrite !dq_o_stream by assumption.
    unfold loopback_ticks, bitslip_cycles.
    destruct (Z.eqb_spec rot 0) as [-> | Hne].
    + replace (dq_dw * Z.of_nat t + k - dq_dw - inverse_rotation 0 - dq_dw - 0)
        with (dq_dw * (Z.of_nat t - 2) + k) by lia.
      rewrite stream_bit_word by lia.
      change (Z.to_nat (2 * 1) + 0)%nat with 2%nat.
      destruct (Z.ltb_spec (Z.of_nat t - 2) 0), (Nat.leb_spec 2 t); try lia.
      * now rewrite Z.testbit_0_l.
      * do 2 f_equal. lia.
    + replace (dq_dw * Z.of_nat t + k - dq_dw - inverse_rotation rot - dq_dw - rot)
        with (dq_dw * (Z.of_nat t - 3) + k) by lia.
      rewrite stream_bit_word by lia.
      change (Z.to_nat (2 * 1) + 1)%nat with 3%nat.
      destruct (Z.ltb_spec (Z.of_nat t - 3) 0), (Nat.leb_spec 3 t); try lia.
      * now rewrite Z.testbit_0_l.
      * do 2 f_equal. lia.
  - transitivity false.
    + unfold dq_loopback, dq_o, BitSlip_o. rewrite BitSlip_at_value.
      unfold bitslip_cycles. rewrite testbit_ConstBitSlip_o by lia.
      replace (k <? dq_dw) with false by (symmetry; apply Z.ltb_ge; lia).
      apply andb_false_r.
    + symmetry. destruct (loopback_ticks rot <=? t)%nat.
      * apply (testbit_above dq_dw); auto.
      * apply Z.testbit_0_l.
Qed.

Lemma dq_loopback_delay_witness :
  dq_loopback 1 (inverse_rotation 1) marker_word 3 = 1.
Proof.
  apply (dq_loopback_delay 1 marker_word 3).
  - unfold dq_dw, nphases. lia.
  - intros k. unfold marker_word. destruct (Nat.eqb k 0); vm_compute; split; congruence.
Defined.

(** C2 as stated fails: with rotation 1 the marker word sent at tick 0
    comes back at tick 3, so the delay is neither [cycles] nor [cycles+1]
    ticks. *)
Lemma dq_loopback_not_within_cycles_plus_1 :
  ~ (forall (rot : Z) (wrdata : nat -> Z),
        0 <= rot < dq_dw ->
        (forall k, 0 <= wrdata k < 2 ^ dq_dw) ->
        exists d : nat,
          (d = Z.to_nat bitslip_cycles \/ d = Z.to_nat (bitslip_cycles + 1)) /\
          forall t, (d <= t)%nat ->
                    dq_loopback rot (inverse_rotation rot) wrdata t = wrdata (t - d)%nat).
Proof.
  intros H.
  destruct (H 1 marker_word) as (d & Hd & Hout).
  - unfold dq_dw, nphases. lia.
  - intros k. unfold marker_word. destruct (Nat.eqb k 0); vm_compute; split; congruence.
  - destruct Hd as [-> | ->]; specialize (Hout 3%nat);
      vm_compute in Hout; specialize (Hout ltac:(repeat constructor)); discriminate Hout.
Qed.

Example dq_o_rotation_ex :
  map (dq_o 3 marker_word) [0; 1; 2; 3]%nat = [0; 8; 0; 0]
  /\ map (dq_o 0 marker_word) [0; 1; 2; 3]%nat = [0; 1; 0; 0]
  /\ map (dq_o 15 (fun k => if Nat.eqb k 0 then 3 else 0)) [0; 1; 2; 3]%nat
     = [0; 32768; 1; 0].
Proof. vm_compute. repeat split. Qed.

(** ** The command arbiter *)

(** *** Slices and reductions *)

Lemma reduce_or_existsb (l : list bool) :
  reduce_or l = existsb (fun x => x) l.
Proof. unfold reduce_or. apply fold_left_orb_existsb. Qed.

Lemma nth_list_slice {A : Type} (a b i : nat) (l : list A) (d : A) :
  nth i (list_slice a b l) d = if (i <? b - a)%nat then nth (a + i) l d else d.
Proof. unfold list_slice. now rewrite nth_firstn, nth_skipn. Qed.

Lemma length_list_slice {A : Type} (a b : nat) (l : list A) :
  length (list_slice a b l) = Nat.min (b - a) (length l - a).
Proof. unfold list_slice. now rewrite length_firstn, length_skipn. Qed.

Lemma nth_map_seq {A : Type} (f : nat -> A) (n i : nat) (d : A) :
  (i < n)%nat -> nth i (map f (seq 0 n)) d = f i.
Proof.
  intros Hi. rewrite (nth_indep _ d (f 0%nat)) by (rewrite length_map, length_seq; lia).
  rewrite (map_nth f (seq 0 n) 0%nat i), seq_nth by lia. reflexivity.
Qed.

Lemma reduce_or_slice_false (a b : nat) (l : list bool) :
  (forall j, (a <= j < b)%nat -> nth j l false = false) ->
  reduce_or (list_slice a b l) = false.
Proof.
  intros H. rewrite reduce_or_existsb.
  destruct (existsb _ _) eqn:E; [| reflexivity].
  apply existsb_exists in E. destruct E as (x & Hin & ->).
  apply (In_nth _ _ false) in Hin. destruct Hin as (n & Hn & Hx).
  rewrite length_list_slice in Hn. rewrite nth_list_slice in Hx.
  destruct (Nat.ltb_spec n (b - a)); [| lia].
  rewrite H in Hx by lia. discriminate Hx.
Qed.

Lemma reduce_or_slice_true (a b j : nat) (l : list bool) :
  (a <= j < b)%nat -> (j < length l)%nat -> nth j l false = true ->
  reduce_or (list_slice a b l) = true.
Proof.
  intros Hj Hl Hn. rewrite reduce_or_existsb.
  apply existsb_exists. exists true. split; [| reflexivity].
  rewrite <- Hn. replace j with (a + (j - a))%nat by lia.
  replace (nth (a + (j - a)) l false) with (nth (j - a) (list_slice a b l) false).
  - apply nth_In. rewrite length_list_slice. lia.
  - rewrite nth_list_slice. destruct (Nat.ltb_spec (j - a) (b - a)); [reflexivity | lia].
Qed.

(** *** The masked history *)

Lemma valids_hist_upto_length (r : Z) (n : nat) :
  length (valids_hist_upto r n) = n.
Proof.
  induction n as [| n IH]; [reflexivity |].
  cbn [valids_hist_upto]. rewrite length_app, IH. cbn. lia.
Qed.

Lemma valids_hist_upto_prefix (r : Z) (n m i : nat) :
  (i < n)%nat -> (n <= m)%nat ->
  nth i (valids_hist_upto r m) false = nth i (valids_hist_upto r n) false.
Proof.
  intros Hi Hnm. induction Hnm as [| m Hnm IH]; [reflexivity |].
  cbn [valids_hist_upto]. rewrite app_nth1; [exact IH |].
  rewrite valids_hist_upto_length. lia.
Qed.

Lemma valids_hist_upto_S (r : Z) (i : nat) :
  valids_hist_upto r (S i)
  = valids_hist_upto r i
    ++ [Z.testbit r (Z.of_nat i)
        && negb (reduce_or (list_slice (Nat.max 0 (i - 3)) i (valids_hist_upto r i)))].
Proof. reflexivity. Qed.

Lemma valids_hist_upto_bit (r : Z) (n i : nat) :
  (i < n)%nat ->
  nth i (valids_hist_upto r n) false
  = Z.testbit r (Z.of_nat i)
    && negb (reduce_or (list_slice (Nat.max 0 (i - 3)) i (valids_hist_upto r n))).
Proof.
  intros Hi.
  rewrite (valids_hist_upto_prefix r (S i) n i) by lia.
  rewrite valids_hist_upto_S.
  rewrite app_nth2 by (rewrite valids_hist_upto_length; lia).
  rewrite valids_hist_upto_length, Nat.sub_diag. cbn [nth].
  f_equal. f_equal. f_equal.
  apply nth_ext with (d := false) (d' := false).
  - rewrite !length_list_slice, !valids_hist_upto_length. lia.
  - intros k Hk. rewrite length_list_slice, valids_hist_upto_length in Hk.
    rewrite !nth_list_slice.
    destruct (Nat.ltb_spec k (i - Nat.max 0 (i - 3))); [| reflexivity].
    symmetry. apply valids_hist_upto_prefix; lia.
Qed.

Lemma valids_hist_16 (r : Z) : valids_hist r = valids_hist_upto r 16.
Proof. reflexivity. Qed.

(** Bit [i] of [valids_hist] as the loop defines it. *)
Lemma valids_hist_bit (r : Z) (i : nat) :
  (i < 16)%nat ->
  nth i (valids_hist r) false
  = Z.testbit r (Z.of_nat i)
    && negb (reduce_or (list_slice (Nat.max 0 (i - 3)) i (valids_hist r))).
Proof. rewrite valids_hist_16. apply valids_hist_upto_bit. Qed.

Lemma valids_hist_length (r : Z) : length (valids_hist r) = 16%nat.
Proof. rewrite valids_hist_16. apply valids_hist_upto_length. Qed.

(** A slot is occupied only by a command that is valid, and a valid
    command occupies its slot unless one of the three slots before it is
    occupied. *)
Lemma valids_hist_occupied (r : Z) (i : nat) :
  (i < 16)%nat ->
  (nth i (valids_hist r) false = true <->
   Z.testbit r (Z.of_nat i) = true /\
   forall j, (i - 3 <= j < i)%nat -> nth j (valids_hist r) false = false).
Proof.
  intros Hi. rewrite valids_hist_bit by exact Hi.
  rewrite andb_true_iff, negb_true_iff. split.
  - intros [Hr Hn]. split; [exact Hr |]. intros j Hj.
    destruct (nth j (valids_hist r) false) eqn:E; [| reflexivity].
    rewrite (reduce_or_slice_true _ _ j) in Hn; auto; try lia.
    rewrite valids_hist_length. lia.
  - intros [Hr Hn]. split; [exact Hr |].
    apply reduce_or_slice_false. intros j Hj. apply Hn. lia.
Qed.

(** [allowed] is the absence of an occupied slot among the three before
    the adapter's own. *)
Lemma allowed_iff (r : Z) (phase : nat) :
  (phase < 8)%nat ->
  (allowed r phase = true <->
   forall j, (8 + phase - 3 <= j < 8 + phase)%nat ->
             nth j (valids_hist r) false = false).
Proof.
  intros Hp. unfold allowed. change (Z.to_nat nphases) with 8%nat.
  rewrite negb_true_iff. split.
  - intros Hn j Hj.
    destruct (nth j (valids_hist r) false) eqn:E; [| reflexivity].
    rewrite (reduce_or_slice_true _ _ j) in Hn; auto.
    rewrite valids_hist_length. lia.
  - intros H. now apply reduce_or_slice_false.
Qed.

(** *** Masking *)

Lemma ConstBitSlip_o_mask (slp r : Z) (b : bool) :
  0 <= slp <= nphases ->
  Z.land (ConstBitSlip_o nphases 1 slp r) (Replicate b nphases)
  = if b then ConstBitSlip_o nphases 1 slp r else 0.
Proof.
  intros Hs. destruct b; cbn [Replicate]; [| apply Z.land_0_r].
  apply Z.bits_inj'. intros k Hk.
  rewrite Z.land_spec, Z.testbit_ones_nonneg by (unfold nphases; lia).
  rewrite testbit_ConstBitSlip_o by lia.
  now rewrite <- andb_assoc, andb_diag.
Qed.

Lemma cs_of_adapter_masked (st : Arbiter) (phase : nat) :
  (phase < 8)%nat ->
  cs_of_adapter st phase
  = if allowed (valids_r st) phase
    then ConstBitSlip_o nphases 1 (Z.of_nat phase) (nth phase (cs_bs_r st) 0)
    else 0.
Proof.
  intros Hp. unfold cs_of_adapter. apply ConstBitSlip_o_mask.
  unfold nphases. lia.
Qed.

Lemma ca_of_adapter_masked (st : Arbiter) (bit phase : nat) :
  (phase < 8)%nat ->
  ca_of_adapter st bit phase
  = if allowed (valids_r st) phase
    then ConstBitSlip_o nphases 1 (Z.of_nat phase)
                        (nth bit (nth phase (ca_bs_r st) []) 0)
    else 0.
Proof.
  intros Hp. unfold ca_of_adapter. apply ConstBitSlip_o_mask.
  unfold nphases. lia.
Qed.



Example three_commands_out_cs :
  map (fun t => out_cs (Arbiter_at three_commands t)) [1; 2; 3]%nat
  = [64; 21; 0].
Proof. vm_compute. reflexivity. Qed.

(** C1, on the code: the mask of a tick gates the whole slipped word, the
    tail of the command of the tick before included.  With commands on
    phases 5 and 6 of one tick the later one is refused on its first two
    DRAM clocks, but its last two (CS 1, and its CA words) reach the pads
    on the next tick, over the end of the earlier command; and a command on
    phase 6 followed, seven DRAM clocks later, by one on phase 5 of the
    next tick loses its last two clocks (CS comes out 160 where the command
    alone gives 1 and both together should give 161). *)
Theorem arbiter_mask_misses_command_tail :
  (* overlapping commands on phases 5 and 6 *)
  map (fun t => allowed (valids_r (Arbiter_at overlapping_5_6 t)) 6) [1; 2]%nat
  = [false; true] /\
  map (fun t => cs_of_adapter (Arbiter_at overlapping_5_6 t) 6) [1; 2]%nat
  = [0; 1] /\
  map (fun t => map (fun bit => ca_of_adapter (Arbiter_at overlapping_5_6 t) bit 6)
                    ca_bits) [1; 2]%nat
  = [[0; 0; 0; 0; 0; 0]; [2; 3; 2; 1; 0; 1]] /\
  map (fun t => out_cs (Arbiter_at overlapping_5_6 t)) [1; 2]%nat = [160; 1] /\
  (* commands seven DRAM clocks apart *)
  map (fun t => allowed (valids_r (Arbiter_at apart_6_then_5 t)) 6) [1; 2]%nat
  = [true; false] /\
  map (fun t => cs_of_adapter (Arbiter_at apart_6_then_5 t) 6) [1; 2]%nat
  = [64; 0] /\
  map (fun t => cs_of_adapter (Arbiter_at alone_6 t) 6) [1; 2]%nat
  = [64; 1] /\
  map (fun t => out_cs (Arbiter_at apart_6_then_5 t)) [1; 2; 3]%nat
  = [64; 160; 0] /\
  map (fun t => map (out_ca (Arbiter_at apart_6_then_5 t)) ca_bits) [2]%nat
  = [[96; 160; 96; 160; 96; 160]] /\
  map (fun t => map (out_ca (Arbiter_at alone_6 t)) ca_bits) [2]%nat
  = [[2; 3; 2; 1; 0; 1]].
Proof. vm_compute. repeat split. Qed.


Lemma strobe_framing_single_pulse_witness :
  (dqs_preamble 1 (pulse_dfi 2) 4 = true <-> 4 = 2 + 1)%nat /\
  (dq_oe 1 (pulse_dfi 2) 4 = true <-> 4 = 2 + 1 + 1)%nat /\
  (dqs_postamble 1 (pulse_dfi 2) 4 = true <-> 4 = 2 + 1 + 2)%nat /\
  dqs_preamble 1 (pulse_dfi 2) 4 && dq_oe 1 (pulse_dfi 2) 4 = false /\
  dq_oe 1 (pulse_dfi 2) 4 && dqs_postamble 1 (pulse_dfi 2) 4 = false /\
  dqs_preamble 1 (pulse_dfi 2) 4 && dqs_postamble 1 (pulse_dfi 2) 4 = false /\
  (false = false ->
   (dqs_oe 1 (pulse_dfi 2) (fun _ => false) 4 = true
    <-> (2 + 1 <= 4 <= 2 + 1 + 2)%nat)).
Proof.
  apply (strobe_framing_single_pulse 1 (pulse_dfi 2) (fun _ => false) 2 4).
  intros k. unfold pulse_dfi, wrdata_en_any.
  destruct (Nat.eqb k 2); reflexivity.
Defined.

Lemma rddata_valid_wlevel_witness :
  (true = true -> rddata_valid 4 reads_dfi (fun _ => true) 0 7 = true) /\
  (true = false ->
   rddata_valid 4 reads_dfi (fun _ => true) 0 7
   = if (4 <=? 7)%nat then existsb rddata_en (reads_dfi (7 - 4)%nat) else false).
Proof.
  apply (rddata_valid_wlevel 4 reads_dfi (fun _ => true) 0 7). lia.
Defined.

Example rddata_valid_ex :
  map (rddata_valid 4 reads_dfi (fun k => Nat.eqb k 2) 0)
      [0; 1; 2; 3; 4; 5; 6; 7; 8; 9; 10]%nat
  = [false; false; true; false; true; false; false; false; false; true; false].
Proof. vm_compute. reflexivity. Qed.

(* ===================================================================== *)
(** * Further properties *)
(* ===================================================================== *)

(** ** The registers of the command path *)

Lemma testbit_Cat_bits (l : list bool) (j : nat) :
  Z.testbit (Cat_bits l) (Z.of_nat j) = nth j l false.
Proof.
  revert j. induction l as [| b l IH]; intros j.
  - cbn [Cat_bits]. rewrite Z.testbit_0_l. now destruct j.
  - cbn [Cat_bits]. rewrite Z.add_comm. destruct j as [| j].
    + apply Z.testbit_0_r.
    + rewrite Nat2Z.inj_succ, Z.testbit_succ_r by lia. apply IH.
Qed.

Lemma Arbiter_at_valids_r (adapters : nat -> list Adapter) (t : nat) :
  valids_r (Arbiter_at adapters t)
  = run (ConstBitSlip_next nphases 1) 0 (fun k => valids_i (adapters k)) t.
Proof.
  unfold Arbiter_at. induction t as [| t IH]; cbn [run]; [reflexivity |].
  unfold Arbiter_step at 1. cbn [valids_r]. now rewrite IH.
Qed.

Lemma Arbiter_at_cs_bs_r (adapters : nat -> list Adapter) (t p : nat) :
  (p < 8)%nat ->
  nth p (cs_bs_r (Arbiter_at adapters t)) 0
  = run (ConstBitSlip_next nphases 1) 0
        (fun k => cs (nth p (adapters k) idle)) t.
Proof.
  intros Hp. unfold Arbiter_at. induction t as [| t IH]; cbn [run].
  - unfold Arbiter_reset, phases. cbn [cs_bs_r].
    change (Z.to_nat nphases) with 8%nat. now rewrite nth_map_seq.
  - unfold Arbiter_step at 1. cbn [cs_bs_r]. unfold phases.
    change (Z.to_nat nphases) with 8%nat. rewrite nth_map_seq by exact Hp.
    now rewrite IH.
Qed.

Lemma Arbiter_at_ca_bs_r (adapters : nat -> list Adapter) (t p bit : nat) :
  (p < 8)%nat -> (bit < 6)%nat ->
  nth bit (nth p (ca_bs_r (Arbiter_at adapters t)) []) 0
  = run (ConstBitSlip_next nphases 1) 0
        (fun k => ca_bit_hist (nth p (adapters k) idle) bit) t.
Proof.
  intros Hp Hb. unfold Arbiter_at. induction t as [| t IH]; cbn [run].
  - unfold Arbiter_reset, phases, ca_bits. cbn [ca_bs_r].
    change (Z.to_nat nphases) with 8%nat.
    rewrite (nth_map_seq _ 8 p) by exact Hp. now rewrite nth_map_seq.
  - unfold Arbiter_step at 1. cbn [ca_bs_r]. unfold phases, ca_bits.
    change (Z.to_nat nphases) with 8%nat.
    rewrite (nth_map_seq _ 8 p) by exact Hp. rewrite nth_map_seq by exact Hb.
    now rewrite IH.
Qed.

Lemma testbit_valids_r (adapters : nat -> list Adapter) (t j : nat) :
  Z.testbit (valids_r (Arbiter_at adapters t)) (Z.of_nat j)
  = if (j <? 8)%nat then
      (2 <=? t)%nat && valid (nth j (adapters (t - 2)%nat) idle)
    else if (j <? 16)%nat then
      (1 <=? t)%nat && valid (nth (j - 8) (adapters (t - 1)%nat) idle)
    else false.
Proof.
  rewrite Arbiter_at_valids_r.
  rewrite testbit_run_ConstBitSlip by (try reflexivity; lia).
  unfold buffer_bit, nphases, valids_i.
  destruct (Nat.ltb_spec j 8), (Z.ltb_spec (Z.of_nat j) 8); try lia.
  - destruct (2 <=? t)%nat; [| reflexivity].
    rewrite testbit_Cat_bits. cbn [andb].
    change false with (valid idle). apply map_nth.
  - destruct (Nat.ltb_spec j 16), (Z.ltb_spec (Z.of_nat j) (2 * 8));
      try lia; try reflexivity.
    destruct (1 <=? t)%nat; [| reflexivity].
    replace (Z.of_nat j - 8) with (Z.of_nat (j - 8)) by lia.
    rewrite testbit_Cat_bits. cbn [andb].
    change false with (valid idle). apply map_nth.
Qed.

(** The history of valids: at tick [t], bits 0..7 of [valids.r] are the
    adapters' valid flags of tick [t-2] and bits 8..15 those of tick
    [t-1], adapter [p] at bit [p]; the register holds 0 before. *)
Theorem valids_r_history (adapters : nat -> list Adapter) (t j : nat) :
  Z.testbit (valids_r (Arbiter_at adapters t)) (Z.of_nat j)
  = if (j <? 8)%nat then
      (2 <=? t)%nat && valid (nth j (adapters (t - 2)%nat) idle)
    else if (j <? 16)%nat then
      (1 <=? t)%nat && valid (nth (j - 8) (adapters (t - 1)%nat) idle)
    else false.
Proof. apply testbit_valids_r. Qed.

Example valids_r_history_ex :
  map (fun t => valids_r (Arbiter_at three_commands t)) [0; 1; 2; 3; 4]%nat
  = [0; 16384; 1344; 5; 0].
Proof. vm_compute. reflexivity. Qed.

(** ** The masked history keeps occupied slots apart *)

Lemma valids_hist_raw (r : Z) (i : nat) :
  nth i (valids_hist r) false = true -> Z.testbit r (Z.of_nat i) = true.
Proof.
  intros H. destruct (Nat.lt_ge_cases i 16) as [Hi | Hi].
  - now apply valids_hist_occupied in H.
  - rewrite nth_overflow in H by (rewrite valids_hist_length; exact Hi).
    discriminate H.
Qed.

(** Invariant of [valids_hist]: an occupied slot belongs to a valid
    command, the three slots after an occupied slot are free, and a valid
    command is occupied when no command is valid in the three slots before
    it. *)
Theorem valids_hist_spacing (r : Z) (i : nat) :
  (i < 16)%nat ->
  (nth i (valids_hist r) false = true ->
   Z.testbit r (Z.of_nat i) = true /\
   forall j, (i < j <= i + 3)%nat -> nth j (valids_hist r) false = false) /\
  (Z.testbit r (Z.of_nat i) = true ->
   (forall j, (i - 3 <= j < i)%nat -> Z.testbit r (Z.of_nat j) = false) ->
   nth i (valids_hist r) false = true).
Proof.
  intros Hi. split.
  - intros Hocc. split; [now apply valids_hist_raw |].
    intros j Hj. destruct (nth j (valids_hist r) false) eqn:E; [| reflexivity].
    destruct (Nat.lt_ge_cases j 16) as [Hj16 | Hj16].
    + apply valids_hist_occupied in E; [| exact Hj16].
      destruct E as [_ E]. rewrite E in Hocc by lia. discriminate Hocc.
    + rewrite nth_overflow in E by (rewrite valids_hist_length; exact Hj16).
      discriminate E.
  - intros Hr Hfree. apply valids_hist_occupied; [exact Hi |].
    split; [exact Hr |]. intros j Hj.
    destruct (nth j (valids_hist r) false) eqn:E; [| reflexivity].
    apply valids_hist_raw in E. rewrite Hfree in E by exact Hj. discriminate E.
Qed.

Lemma valids_hist_spacing_witness :
  nth 6 (valids_hist 1344) false = true /\
  Z.testbit 1344 6 = true /\
  nth 8 (valids_hist 1344) false = false /\
  nth 10 (valids_hist 1344) false = true.
Proof.
  destruct (valids_hist_spacing 1344 6 ltac:(lia)) as [H1 H2].
  assert (H6 : nth 6 (valids_hist 1344) false = true).
  { apply H2; [reflexivity |]. intros j Hj.
    assert (E : j = 3%nat \/ j = 4%nat \/ j = 5%nat) by lia.
    destruct E as [-> | [-> | ->]]; reflexivity. }
  destruct (H1 H6) as [Hr Hfree].
  split; [exact H6 |]. split; [exact Hr |].
  split; [apply Hfree; lia | vm_compute; reflexivity].
Defined.

(** ** A lone command reaches the pads unmasked *)

Lemma allowed_of_raw (r : Z) (p : nat) :
  (p < 8)%nat ->
  (forall j, (8 + p - 3 <= j < 8 + p)%nat -> Z.testbit r (Z.of_nat j) = false) ->
  allowed r p = true.
Proof.
  intros Hp Hfree. apply allowed_iff; [exact Hp |]. intros j Hj.
  destruct (nth j (valids_hist r) false) eqn:E; [| reflexivity].
  apply valids_hist_raw in E. rewrite Hfree in E by exact Hj. discriminate E.
Qed.

Lemma run_ext {State Input : Type} (step : State -> Input -> State)
      (s0 : State) (i i' : nat -> Input) (t : nat) :
  (forall k, i k = i' k) -> run step s0 i t = run step s0 i' t.
Proof.
  intros H. induction t as [| t IH]; cbn [run]; [reflexivity |].
  now rewrite IH, H.
Qed.

Lemma fold_left_lor_single {A : Type} (f : A -> Z) (l : list A) (v a : Z) :
  (forall q, In q l -> f q = 0 \/ f q = v) ->
  fold_left Z.lor (map f l) a = a \/
  fold_left Z.lor (map f l) a = Z.lor a v.
Proof.
  revert a. induction l as [| x l IH]; intros a H; cbn [map fold_left].
  - now left.
  - destruct (H x (or_introl eq_refl)) as [E | E]; rewrite E.
    + rewrite Z.lor_0_r. apply IH. intros q Hq. apply H. now right.
    + destruct (IH (Z.lor a v) (fun q Hq => H q (or_intror Hq))) as [E' | E'];
        rewrite E'; right; [reflexivity |].
      now rewrite <- Z.lor_assoc, Z.lor_diag.
Qed.

(** When every phase but [p] contributes 0, the OR over the phases is the
    contribution of [p]. *)
Lemma reduce_lor_single (f : nat -> Z) (p : nat) :
  (p < 8)%nat ->
  (forall q, (q < 8)%nat -> q <> p -> f q = 0) ->
  reduce_lor (map f phases) = f p.
Proof.
  intros Hp H0.
  assert (Hsplit : phases = seq 0 p ++ p :: seq (S p) (8 - S p)).
  { unfold phases. change (Z.to_nat nphases) with 8%nat.
    replace 8%nat with (p + (8 - p))%nat at 1 by lia.
    rewrite seq_app. cbn [Nat.add]. f_equal.
    replace (8 - p)%nat with (S (8 - S p)) by lia. reflexivity. }
  assert (Hz : forall (l : list nat) a,
             (forall q, In q l -> f q = 0) ->
             fold_left Z.lor (map f l) a = a).
  { induction l as [| x l IH]; intros a H; cbn [map fold_left]; [reflexivity |].
    rewrite (H x (or_introl eq_refl)), Z.lor_0_r.
    apply IH. intros q Hq. apply H. now right. }
  assert (Hlo : forall q, In q (seq 0 p) -> f q = 0).
  { intros q Hq. apply in_seq in Hq. apply H0; lia. }
  assert (Hhi : forall q, In q (seq (S p) (8 - S p)) -> f q = 0).
  { intros q Hq. apply in_seq in Hq. apply H0; lia. }
  rewrite Hsplit, map_app. cbn [map]. unfold reduce_lor.
  destruct (map f (seq 0 p)) as [| x rest] eqn:E.
  - cbn [app]. now apply Hz.
  - cbn [app]. rewrite fold_left_app. cbn [fold_left].
    assert (Hpre : fold_left Z.lor rest x = 0).
    { destruct (seq 0 p) as [| y l'] eqn:Es; [discriminate E |].
      cbn [map] in E. injection E as <- <-.
      rewrite Hz by (intros q Hq; apply Hlo; now right).
      apply Hlo. now left. }
    rewrite Hpre, Z.lor_0_l. now apply Hz.
Qed.

Lemma testbit_slipped_word (x : Z) (p t0 t : nat) (k : Z) :
  (p < 8)%nat -> 0 <= k ->
  Z.testbit (slipped_word x p t0 t) k
  = (k <? 8)
    && buffer_bit 8 (fun n => if Nat.eqb n t0 then x else 0) t (k + 8 - Z.of_nat p).
Proof.
  intros Hp Hk. unfold slipped_word, buffer_bit, nphases.
  destruct (Z.ltb_spec k 8) as [Hk8 | Hk8]; cbn [andb].
  - destruct (Z.ltb_spec (k + 8 - Z.of_nat p) 8) as [Hlo | Hhi].
    + (* the bit is taken from the word of tick t-2 *)
      destruct (Nat.eqb_spec t (t0 + 1)) as [-> | H1].
      * rewrite testbit_truncate, Z.shiftl_spec by lia.
        rewrite Z.testbit_neg_r by lia.
        destruct (Nat.leb_spec 2 (t0 + 1)); [| reflexivity].
        destruct (Nat.eqb_spec (t0 + 1 - 2) t0); [lia |].
        now rewrite Z.testbit_0_l.
      * destruct (Nat.eqb_spec t (t0 + 2)) as [-> | H2].
        -- rewrite Z.shiftr_spec, testbit_truncate by lia.
           replace (k + (8 - Z.of_nat p)) with (k + 8 - Z.of_nat p) by lia.
           destruct (Nat.leb_spec 2 (t0 + 2)); [| lia].
           replace (t0 + 2 - 2)%nat with t0 by lia. rewrite Nat.eqb_refl.
           replace (k + 8 - Z.of_nat p <? 8) with true
             by (symmetry; apply Z.ltb_lt; lia).
           apply andb_true_r.
        -- rewrite Z.testbit_0_l.
           destruct (Nat.leb_spec 2 t); [| reflexivity].
           destruct (Nat.eqb_spec (t - 2) t0); [lia |].
           now rewrite Z.testbit_0_l.
    + (* the bit is taken from the word of tick t-1 *)
      replace (k + 8 - Z.of_nat p <? 2 * 8) with true
        by (symmetry; apply Z.ltb_lt; lia).
      destruct (Nat.eqb_spec t (t0 + 1)) as [-> | H1].
      * rewrite testbit_truncate, Z.shiftl_spec by lia.
        replace (k <? 8) with true by (symmetry; apply Z.ltb_lt; lia).
        rewrite andb_true_r.
        destruct (Nat.leb_spec 1 (t0 + 1)); [| lia].
        replace (t0 + 1 - 1)%nat with t0 by lia. rewrite Nat.eqb_refl.
        f_equal. lia.
      * destruct (Nat.eqb_spec t (t0 + 2)) as [-> | H2].
        -- rewrite Z.shiftr_spec, testbit_truncate by lia.
           replace (k + (8 - Z.of_nat p) <? 8) with false
             by (symmetry; apply Z.ltb_ge; lia).
           rewrite andb_false_r.
           destruct (Nat.leb_spec 1 (t0 + 2)); [| reflexivity].
           destruct (Nat.eqb_spec (t0 + 2 - 1) t0); [lia |].
           now rewrite Z.testbit_0_l.
        -- rewrite Z.testbit_0_l.
           destruct (Nat.leb_spec 1 t); [| reflexivity].
           destruct (Nat.eqb_spec (t - 1) t0); [lia |].
           now rewrite Z.testbit_0_l.
  - (* above the word *)
    destruct (Nat.eqb t (t0 + 1)).
    + rewrite testbit_truncate by lia.
      replace (k <? 8) with false by (symmetry; apply Z.ltb_ge; lia).
      apply andb_false_r.
    + destruct (Nat.eqb t (t0 + 2)); [| apply Z.testbit_0_l].
      rewrite Z.shiftr_spec, testbit_truncate by lia.
      replace (k + (8 - Z.of_nat p) <? 8) with false
        by (symmetry; apply Z.ltb_ge; lia).
      apply andb_false_r.
Qed.

(** The output of a ConstBitSlip that slips by [p] and saw [x] at tick
    [t0] and 0 otherwise. *)
Lemma ConstBitSlip_o_lone (x : Z) (p t0 t : nat) (i : nat -> Z) :
  (p < 8)%nat ->
  (forall n, i n = if Nat.eqb n t0 then x else 0) ->
  ConstBitSlip_o nphases 1 (Z.of_nat p) (run (ConstBitSlip_next nphases 1) 0 i t)
  = slipped_word x p t0 t.
Proof.
  intros Hp Hi. rewrite (run_ext _ _ i _ t Hi).
  apply Z.bits_inj'. intros k Hk.
  rewrite testbit_ConstBitSlip_o by (unfold nphases; lia).
  rewrite testbit_run_ConstBitSlip by (unfold nphases; lia).
  rewrite testbit_slipped_word by assumption.
  unfold nphases. apply andb_comm.
Qed.

Lemma ConstBitSlip_o_idle (q t : nat) (i : nat -> Z) :
  (q < 8)%nat ->
  (forall n, i n = 0) ->
  ConstBitSlip_o nphases 1 (Z.of_nat q) (run (ConstBitSlip_next nphases 1) 0 i t)
  = 0.
Proof.
  intros Hq Hi. apply Z.bits_inj'. intros k Hk.
  rewrite testbit_ConstBitSlip_o by (unfold nphases; lia).
  rewrite testbit_run_ConstBitSlip by (unfold nphases; lia).
  unfold buffer_bit. rewrite !Hi, !Z.testbit_0_l.
  repeat match goal with
         | |- context [if ?b then _ else _] => destruct b
         end; reflexivity.
Qed.

Lemma nth_lone_command (p t0 : nat) (c : Adapter) (k q : nat) :
  (q < 8)%nat ->
  nth q (lone_command p t0 c k) idle
  = if Nat.eqb q p && Nat.eqb k t0 then c else idle.
Proof.
  intros Hq. unfold lone_command, phases. change (Z.to_nat nphases) with 8%nat.
  now rewrite nth_map_seq.
Qed.

Lemma ca_bit_hist_idle (bit : nat) : ca_bit_hist idle bit = 0.
Proof.
  unfold ca_bit_hist, idle. cbn [ca seq map nth Cat_bits].
  rewrite !Z.testbit_0_l. reflexivity.
Qed.

Lemma allowed_lone_command (p t0 : nat) (c : Adapter) (t : nat) :
  (p < 8)%nat ->
  allowed (valids_r (Arbiter_at (lone_command p t0 c) t)) p = true.
Proof.
  intros Hp. apply allowed_of_raw; [exact Hp |]. intros j Hj.
  rewrite testbit_valids_r.
  destruct (Nat.ltb_spec j 8) as [Hj8 | Hj8].
  - rewrite nth_lone_command by exact Hj8.
    destruct (Nat.eqb_spec j p); [lia |]. cbn [andb]. apply andb_false_r.
  - destruct (Nat.ltb_spec j 16); [| reflexivity].
    rewrite nth_lone_command by lia.
    destruct (Nat.eqb_spec (j - 8) p); [lia |]. cbn [andb]. apply andb_false_r.
Qed.

(** An adapter that presents a command at one tick while every adapter is
    idle otherwise is never masked: its chip select and each of its CA
    lanes come out slipped by its phase, on the next tick and, for the
    part past the eighth DRAM clock, on the tick after; nothing else
    reaches the pads. *)
Theorem lone_command_unmasked (p t0 : nat) (c : Adapter) (t : nat) :
  (p < 8)%nat ->
  out_cs (Arbiter_at (lone_command p t0 c) t) = slipped_word (cs c) p t0 t /\
  forall bit,
    (bit < 6)%nat ->
    out_ca (Arbiter_at (lone_command p t0 c) t) bit
    = slipped_word (ca_bit_hist c bit) p t0 t.
Proof.
  intros Hp. split; [| intros bit Hbit].
  - unfold out_cs. rewrite (reduce_lor_single _ p Hp).
    + rewrite cs_of_adapter_masked, allowed_lone_command by exact Hp.
      rewrite Arbiter_at_cs_bs_r by exact Hp.
      apply ConstBitSlip_o_lone; [exact Hp |]. intros n.
      rewrite nth_lone_command, Nat.eqb_refl by exact Hp. cbn [andb].
      now destruct (Nat.eqb n t0).
    + intros q Hq Hne. unfold cs_of_adapter.
      rewrite Arbiter_at_cs_bs_r by exact Hq.
      rewrite ConstBitSlip_o_idle; [reflexivity | exact Hq |].
      intros n. rewrite nth_lone_command by exact Hq.
      destruct (Nat.eqb_spec q p); [contradiction | reflexivity].
  - unfold out_ca. rewrite (reduce_lor_single _ p Hp).
    + rewrite ca_of_adapter_masked, allowed_lone_command by exact Hp.
      rewrite Arbiter_at_ca_bs_r by assumption.
      apply ConstBitSlip_o_lone; [exact Hp |]. intros n.
      rewrite nth_lone_command, Nat.eqb_refl by exact Hp. cbn [andb].
      destruct (Nat.eqb n t0); [reflexivity | apply ca_bit_hist_idle].
    + intros q Hq Hne. unfold ca_of_adapter.
      rewrite Arbiter_at_ca_bs_r by assumption.
      rewrite ConstBitSlip_o_idle; [reflexivity | exact Hq |].
      intros n. rewrite nth_lone_command by exact Hq.
      destruct (Nat.eqb_spec q p); [contradiction | apply ca_bit_hist_idle].
Qed.

Lemma lone_command_unmasked_witness :
  map (fun t => out_cs (Arbiter_at (lone_command 6 0 cmd) t)) [1; 2; 3]%nat
  = [64; 1; 0] /\
  forall bit,
    (bit < 6)%nat ->
    out_ca (Arbiter_at (lone_command 6 0 cmd) 2) bit
    = slipped_word (ca_bit_hist cmd bit) 6 0 2.
Proof.
  split.
  - cbn [map].
    rewrite (proj1 (lone_command_unmasked 6 0 cmd 1 ltac:(lia))).
    rewrite (proj1 (lone_command_unmasked 6 0 cmd 2 ltac:(lia))).
    rewrite (proj1 (lone_command_unmasked 6 0 cmd 3 ltac:(lia))).
    reflexivity.
  - apply (proj2 (lone_command_unmasked 6 0 cmd 2 ltac:(lia))).
Defined.


(** ** get_cl_cw: longer periods never need larger latencies *)

Lemma SFleb_trans (a b c : spec_float) :
  SFleb a b = true -> SFleb b c = true -> SFleb a c = true.
Proof.
  unfold SFleb.
  destruct a as [sa | sa | | sa ma ea], b as [sb | sb | | sb mb eb],
           c as [sc | sc | | sc mc ec]; cbn;
    repeat match goal with s : bool |- _ => destruct s end; cbn;
    try discriminate; try reflexivity.
  all: rewrite ?Pos.compare_cont_spec; cbn.
  all: destruct (Z.compare_spec ea eb), (Z.compare_spec eb ec),
         (Z.compare_spec ea ec); subst; cbn; try discriminate; try reflexivity;
       try lia.
  all: destruct (Pos.compare_spec ma mb), (Pos.compare_spec mb mc),
         (Pos.compare_spec ma mc); subst; cbn; try discriminate; try reflexivity;
       try lia.
Qed.

Lemma float_leb_trans (a b c : float) :
  (a <=? b)%float = true -> (b <=? c)%float = true -> (a <=? c)%float = true.
Proof. rewrite !leb_spec. apply SFleb_trans. Qed.

Lemma reaches_mono (tck1 tck2 f : float) :
  (tck1 <=? tck2)%float = true ->
  reaches tck1 f = true -> reaches tck2 f = true.
Proof.
  unfold reaches, float_geb. intros H12 H1.
  exact (float_leb_trans _ _ _ H1 H12).
Qed.

Lemma get_cl_cw_loop_In (items : list (float * (Z * Z))) (tck : float)
      (x : Z * Z) :
  get_cl_cw_loop items tck = inr x -> exists f, In (f, x) items.
Proof.
  destruct x as [cl cwl]. intros H.
  apply get_cl_cw_loop_inr in H. destruct H as (pre & f & post & -> & _ & _).
  exists f. apply in_elt.
Qed.

(** Entries in ascending order of CL and of CWL. *)
Lemma get_cl_cw_loop_mono (items : list (float * (Z * Z))) (tck1 tck2 : float)
      (cl1 cwl1 : Z) :
  StronglySorted (fun a b => fst (snd a) <= fst (snd b) /\
                             snd (snd a) <= snd (snd b)) items ->
  (tck1 <=? tck2)%float = true ->
  get_cl_cw_loop items tck1 = inr (cl1, cwl1) ->
  exists cl2 cwl2,
    get_cl_cw_loop items tck2 = inr (cl2, cwl2) /\ cl2 <= cl1 /\ cwl2 <= cwl1.
Proof.
  intros Hs H12. induction Hs as [| [f [a b]] rest Hs IH Hall];
    cbn [get_cl_cw_loop].
  - intros H; discriminate H.
  - destruct (reaches tck1 f) eqn:E1.
    + rewrite (reaches_mono _ _ _ H12 E1).
      intros H; injection H as <- <-. exists a, b. repeat split; lia.
    + intros H. destruct (reaches tck2 f) eqn:E2.
      * exists a, b. split; [reflexivity |].
        destruct (get_cl_cw_loop_In _ _ _ H) as (f' & Hin).
        rewrite Forall_forall in Hall. apply (Hall _ Hin).
      * apply IH, H.
Qed.

Lemma f_to_cl_cwl_sorted_by_latency :
  StronglySorted (fun a b => fst (snd a) <= fst (snd b) /\
                             snd (snd a) <= snd (snd b)) f_to_cl_cwl.
Proof.
  unfold f_to_cl_cwl.
  repeat (constructor;
          [| repeat (constructor; [cbn; split; discriminate |]); constructor]).
  constructor.
Qed.

(** A period that misses the threshold of the highest frequency misses
    them all. *)
Lemma get_cl_cw_raises_iff (tck : float) :
  get_cl_cw tck = inl ValueError <-> (tck >=? 2 / f_max)%float = false.
Proof.
  unfold get_cl_cw. rewrite get_cl_cw_loop_inl. split.
  - intros H. rewrite Forall_forall in H.
    apply (H (f_max, (36, 18))). unfold f_to_cl_cwl, f_max. cbn. tauto.
  - intros Hlast.
    assert (Hthr : Forall (fun e => (threshold f_max <=? threshold (fst e))%float = true)
                          f_to_cl_cwl).
    { unfold f_to_cl_cwl, f_max.
      repeat (constructor; [vm_compute; reflexivity |]). constructor. }
    eapply Forall_impl; [| exact Hthr].
    intros e He. unfold unreached, reaches, float_geb.
    destruct (threshold (fst e) <=? tck)%float eqn:E; [| reflexivity].
    unfold float_geb in Hlast. change (2 / f_max)%float with (threshold f_max) in Hlast.
    rewrite (float_leb_trans _ _ _ He E) in Hlast. discriminate Hlast.
Qed.

(** [get_cl_cw] is monotone: when it succeeds for a period it succeeds for
    every period at least as long, with CL and CWL no larger; every pair it
    returns is one of the table's; and it raises exactly for the periods
    that do not reach [2/4266e6] (NaN included). *)
Theorem get_cl_cw_monotone (tck1 tck2 : float) (cl1 cwl1 : Z) :
  (tck1 <=? tck2)%float = true ->
  get_cl_cw tck1 = inr (cl1, cwl1) ->
  (exists f, In (f, (cl1, cwl1)) f_to_cl_cwl) /\
  (exists cl2 cwl2,
      get_cl_cw tck2 = inr (cl2, cwl2) /\ cl2 <= cl1 /\ cwl2 <= cwl1) /\
  (tck1 >=? 2 / f_max)%float = true /\
  6 <= cl1 <= 36 /\ 4 <= cwl1 <= 18.
Proof.
  intros H12 H1. split; [| split; [| split]].
  - exact (get_cl_cw_loop_In _ _ _ H1).
  - exact (get_cl_cw_loop_mono _ _ _ _ _ f_to_cl_cwl_sorted_by_latency H12 H1).
  - destruct (tck1 >=? 2 / f_max)%float eqn:E; [reflexivity |].
    apply get_cl_cw_raises_iff in E. rewrite E in H1. discriminate H1.
  - destruct (get_cl_cw_loop_In _ _ _ H1) as (f & Hin).
    unfold f_to_cl_cwl in Hin. cbn [In] in Hin.
    repeat (destruct Hin as [Hin | Hin]; [injection Hin as _ <- <-; lia |]).
    contradiction.
Qed.

Lemma get_cl_cw_monotone_witness :
  (exists f, In (f, (20, 10)) f_to_cl_cwl) /\
  (exists cl2 cwl2,
      get_cl_cw (1 / 800e6)%float = inr (cl2, cwl2) /\ cl2 <= 20 /\ cwl2 <= 10) /\
  ((1 / 1000e6)%float >=? 2 / f_max)%float = true /\
  6 <= 20 <= 36 /\ 4 <= 10 <= 18.
Proof.
  apply (get_cl_cw_monotone (1 / 1000e6)%float (1 / 800e6)%float 20 10);
    vm_compute; reflexivity.
Defined.

(** ** The constructor's ways out, in order *)


Example LPDDR4PHY_init_outcome_ex :
  LPDDR4PHY_init get_sys_latency_spec get_sys_phase_spec
                 (mkConfig 12 1 0%float (Latency_init 0 0) (Latency_init 0 0)
                           "LPDDR4PHY" true None)
  = inl ZeroDivisionError /\
  LPDDR4PHY_init get_sys_latency_spec get_sys_phase_spec
                 (mkConfig 12 1 400e6%float (Latency_init 0 0) (Latency_init 0 0)
                           "LPDDR4PHY" true None)
  = inl AssertionError_databits /\
  LPDDR4PHY_init get_sys_latency_spec get_sys_phase_spec
                 (mkConfig 16 1 400e6%float (Latency_init 0 0) (Latency_init 0 0)
                           "LPDDR4PHY" true None)
  = inl ValueError.
Proof. vm_compute. repeat split. Qed.

(** ** updated_latency in closed form *)

(** The loop of [updated_latency] computes a floor division: a negative
    phase is replaced by its residue modulo [nphases] and the latency grows
    by the quotient's magnitude; the function is idempotent and never
    lowers the latency. *)
Theorem updated_latency_closed_form (phase sys_latency : Z) :
  updated_latency phase sys_latency
  = (if phase <? 0 then (phase mod nphases, sys_latency - phase / nphases)
     else (phase, sys_latency)) /\
  updated_latency (fst (updated_latency phase sys_latency))
                  (snd (updated_latency phase sys_latency))
  = updated_latency phase sys_latency /\
  sys_latency <= snd (updated_latency phase sys_latency).
Proof.
  destruct (updated_latency_iterations phase sys_latency)
    as (k & Hk & Hk0 & E & Hge & Hlt).
  rewrite E. cbn [fst snd].
  split; [| split; [| lia]].
  - destruct (Z.ltb_spec phase 0) as [Hneg | Hpos].
    + assert (Hr : 0 <= phase + nphases * k < nphases)
        by (split; [exact Hge | apply Hlt; unfold nphases; lia]).
      assert (Hq : phase = nphases * (- k) + (phase + nphases * k)) by lia.
      rewrite <- (Z.div_unique _ _ _ _ (or_introl Hr) Hq).
      rewrite <- (Z.mod_unique _ _ _ _ (or_introl Hr) Hq).
      f_equal. lia.
    + rewrite (Hk0 Hpos). f_equal; lia.
  - destruct (updated_latency_iterations (phase + nphases * k) (sys_latency + k))
      as (k' & _ & Hk0' & E' & _ & _).
    rewrite E', (Hk0' Hge). f_equal; lia.
Qed.

(** ** DoubleRateLPDDR4PHY: latencies of the wrapped PHY *)

Lemma double_rate_latency_canonical (l : Latency) (n : Z) :
  0 <= sys8x l < 8 ->
  double_rate_latency l n = mkLatency (sys l + n) (sys8x l).
Proof.
  intros H. unfold double_rate_latency, Latency_add, Latency_init.
  cbv [sys sys8x]. destruct l as [s t]. cbv [sys sys8x] in H.
  rewrite Z.mod_0_l, Z.div_0_l by discriminate.
  rewrite !Z.add_0_r. rewrite Z.mod_small, Z.div_small by lia.
  f_equal. lia.
Qed.

Section DoubleRate.

Variable get_sys_latency : Z -> Z -> Z.
Variable get_sys_phase : Z -> Z -> Z -> Z.
Variables Serializer_LATENCY Deserializer_LATENCY : Z.

(** With canonical serializer and deserializer latencies, wrapping the PHY
    in [DoubleRateLPDDR4PHY] changes the base constructor's outcome in one
    place only: [read_latency] grows by
    [Serializer.LATENCY + Deserializer.LATENCY].  Phases, CL, CWL, write
    latency and [wrtap] are those of the unwrapped PHY, and the same
    arguments are refused with the same exception. *)
Theorem DoubleRate_read_latency (cfg : Config) :
  0 <= sys8x (ser_latency cfg) < 8 ->
  0 <= sys8x (des_latency cfg) < 8 ->
  DoubleRateLPDDR4PHY_init get_sys_latency get_sys_phase
                           Serializer_LATENCY Deserializer_LATENCY cfg
  = match LPDDR4PHY_init get_sys_latency get_sys_phase cfg with
    | inl e => inl e
    | inr phy =>
        inr (mkPHY (with_read_latency_plus
                      (Serializer_LATENCY + Deserializer_LATENCY)
                      (phy_settings phy))
                   (phy_cl_sys_latency phy) (phy_cwl_sys_latency phy)
                   (phy_wrtap phy))
    end.
Proof.
  intros Hs Hd.
  unfold DoubleRateLPDDR4PHY_init, LPDDR4PHY_init, bind, DoubleRate_kwargs.
  cbn [sys_clk_freq pads_dq_len].
  destruct (compute_tck (sys_clk_freq cfg)) as [e | tck]; [reflexivity |].
  destruct (assert_ (pads_dq_len cfg mod 8 =? 0) AssertionError_databits)
    as [e | []]; [reflexivity |].
  destruct (get_cl_cw tck) as [e | [cl cwl]]; [reflexivity |].
  rewrite !init_timing_unfold. unfold rd_pair.
  cbn [ser_latency des_latency phytype pads_dq_len pads_nranks cmd_delay].
  rewrite !double_rate_latency_canonical by assumption.
  unfold rdphase0. cbn [sys sys8x].
  destruct (0 <=? snd (wr_pair get_sys_latency get_sys_phase cwl) - 1);
    [| reflexivity].
  unfold with_read_latency_plus.
  cbn [phy_settings phy_cl_sys_latency phy_cwl_sys_latency phy_wrtap
       PhySettings.phytype PhySettings.memtype PhySettings.databits
       PhySettings.dfi_databits PhySettings.nranks PhySettings.nphases
       PhySettings.rdphase PhySettings.wrphase PhySettings.cl PhySettings.cwl
       PhySettings.read_latency PhySettings.write_latency
       PhySettings.cmd_latency PhySettings.cmd_delay].
  do 3 f_equal. lia.
Qed.

End DoubleRate.

Lemma DoubleRate_read_latency_witness :
  DoubleRateLPDDR4PHY_init get_sys_latency_spec get_sys_phase_spec 1 2 example_cfg
  = inr (mkPHY (with_read_latency_plus 3 (phy_settings example_phy)) 2 1 0).
Proof.
  rewrite (DoubleRate_read_latency get_sys_latency_spec get_sys_phase_spec 1 2
                                   example_cfg);
    [| vm_compute; split; congruence | vm_compute; split; congruence].
  vm_compute. reflexivity.
Defined.

(** ** Write path: framing of a burst *)

Lemma wrdata_en_any_existsb (dfi : list DFIPhase) :
  wrdata_en_any dfi = existsb wrdata_en dfi.
Proof.
  unfold wrdata_en_any. destruct dfi as [| p l]; [reflexivity |].
  cbn [map]. rewrite fold_left_orb_existsb. cbn [existsb]. f_equal.
  induction l as [| q l IH]; cbn; congruence.
Qed.

(** For write enables asserted on exactly the [n >= 1] ticks from [t0]
    on: [dq_oe] is asserted on exactly the [n] ticks from [t0+wrtap+1]
    on, [dqs_preamble] on the one tick before them and [dqs_postamble] on
    the one tick after them; with write leveling off [dqs_oe] covers
    exactly these [n+2] ticks. *)
Theorem strobe_framing_burst (wrtap : nat) (dfi : nat -> list DFIPhase)
        (wlevel_en : nat -> bool) (t0 n t : nat) :
  (0 < n)%nat ->
  (forall k, wrdata_en_any (dfi k) = Nat.leb t0 k && Nat.ltb k (t0 + n)) ->
  (dqs_preamble wrtap dfi t = true <-> t = (t0 + wrtap)%nat) /\
  (dq_oe wrtap dfi t = true <-> (t0 + wrtap + 1 <= t < t0 + wrtap + 1 + n)%nat) /\
  (dqs_postamble wrtap dfi t = true <-> t = (t0 + wrtap + 1 + n)%nat) /\
  (wlevel_en t = false ->
   (dqs_oe wrtap dfi wlevel_en t = true
    <-> (t0 + wrtap <= t <= t0 + wrtap + 1 + n)%nat)).
Proof.
  intros Hn Hburst.
  assert (Hin : forall k, wrdata_en_input dfi k = true <-> (t0 <= k < t0 + n)%nat).
  { intros k. unfold wrdata_en_input. rewrite Hburst, andb_true_iff.
    rewrite Nat.leb_le, Nat.ltb_lt. tauto. }
  assert (Hoe : dq_oe wrtap dfi t = true
                <-> (t0 + wrtap + 1 <= t < t0 + wrtap + 1 + n)%nat).
  { rewrite dq_oe_delay. destruct (Nat.leb_spec (wrtap + 1) t).
    - rewrite Hin. lia.
    - split; [discriminate | lia]. }
  assert (Hpre : dqs_preamble wrtap dfi t = true <-> t = (t0 + wrtap)%nat).
  { rewrite dqs_preamble_delay, andb_true_iff, negb_true_iff.
    rewrite <- not_true_iff_false, Hoe.
    destruct (Nat.leb_spec wrtap t).
    - rewrite Hin. lia.
    - split; [intros [Hf _]; discriminate Hf | lia]. }
  assert (Hpost : dqs_postamble wrtap dfi t = true
                  <-> t = (t0 + wrtap + 1 + n)%nat).
  { rewrite dqs_postamble_delay, andb_true_iff, negb_true_iff.
    rewrite <- not_true_iff_false, Hoe.
    destruct (Nat.leb_spec (wrtap + 2) t).
    - rewrite Hin. lia.
    - split; [intros [Hf _]; discriminate Hf | lia]. }
  split; [exact Hpre |]. split; [exact Hoe |]. split; [exact Hpost |].
  intros Hw. unfold dqs_oe. rewrite Hw. cbn [orb].
  rewrite !orb_true_iff, Hpre, Hoe, Hpost. lia.
Qed.

Lemma strobe_framing_burst_witness :
  (dqs_preamble 1 (burst_dfi 2 3) 6 = true <-> 6 = 2 + 1)%nat /\
  (dq_oe 1 (burst_dfi 2 3) 6 = true <-> 2 + 1 + 1 <= 6 < 2 + 1 + 1 + 3)%nat /\
  (dqs_postamble 1 (burst_dfi 2 3) 6 = true <-> 6 = 2 + 1 + 1 + 3)%nat /\
  (false = false ->
   (dqs_oe 1 (burst_dfi 2 3) (fun _ => false) 6 = true
    <-> (2 + 1 <= 6 <= 2 + 1 + 1 + 3)%nat)).
Proof.
  apply (strobe_framing_burst 1 (burst_dfi 2 3) (fun _ => false) 2 3 6).
  - lia.
  - intros k. unfold burst_dfi. rewrite wrdata_en_any_existsb.
    destruct (Nat.leb 2 k && Nat.ltb k (2 + 3)); reflexivity.
Defined.

Example strobe_framing_burst_ex :
  map (fun t => (dqs_preamble 1 (burst_dfi 2 3) t, dq_oe 1 (burst_dfi 2 3) t,
                 dqs_postamble 1 (burst_dfi 2 3) t)) [2; 3; 4; 5; 6; 7; 8]%nat
  = [ (false, false, false); (true, false, false); (false, true, false);
      (false, true, false); (false, true, false); (false, false, true);
      (false, false, false) ].
Proof. reflexivity. Qed.

(** ** Write path: the strobe brackets the data, whatever the enables *)

(** For every stream of write enables: whenever [dq_oe] is asserted,
    [dqs_oe] is asserted on that tick, on the tick before and on the tick
    after; [dqs_preamble] and [dqs_postamble] are never asserted together
    with [dq_oe]; and with write leveling off [dqs_oe] is exactly the OR of
    the three taps around [wrtap], so it is low once three ticks have
    passed without a write enable. *)
Theorem dqs_oe_brackets_dq_oe (wrtap : nat) (dfi : nat -> list DFIPhase)
        (wlevel_en : nat -> bool) (t : nat) :
  (dq_oe wrtap dfi t = true ->
   (1 <= t)%nat /\
   dqs_oe wrtap dfi wlevel_en (t - 1) = true /\
   dqs_oe wrtap dfi wlevel_en t = true /\
   dqs_oe wrtap dfi wlevel_en (t + 1) = true) /\
  dqs_preamble wrtap dfi t && dq_oe wrtap dfi t = false /\
  dqs_postamble wrtap dfi t && dq_oe wrtap dfi t = false /\
  (wlevel_en t = false ->
   dqs_oe wrtap dfi wlevel_en t
   = (if (wrtap <=? t)%nat then wrdata_en_input dfi (t - wrtap) else false)
     || (if (wrtap + 1 <=? t)%nat then wrdata_en_input dfi (t - (wrtap + 1))
         else false)
     || (if (wrtap + 2 <=? t)%nat then wrdata_en_input dfi (t - (wrtap + 2))
         else false)).
Proof.
  split; [| split; [| split]].
  - intros Hoe. pose proof Hoe as Hoe'. rewrite dq_oe_delay in Hoe'.
    destruct (Nat.leb_spec (wrtap + 1) t) as [Ht | Ht]; [| discriminate Hoe'].
    split; [lia |]. split; [| split].
    + unfold dqs_oe.
      assert (E : dqs_preamble wrtap dfi (t - 1) || dq_oe wrtap dfi (t - 1) = true).
      { rewrite dqs_preamble_delay.
        destruct (Nat.leb_spec wrtap (t - 1)); [| lia].
        replace (t - 1 - wrtap)%nat with (t - (wrtap + 1))%nat by lia.
        rewrite Hoe'. cbn [andb]. apply orb_negb_l. }
      rewrite E. apply orb_true_r.
    + unfold dqs_oe. rewrite Hoe. rewrite orb_true_r. cbn [orb].
      apply orb_true_r.
    + unfold dqs_oe.
      assert (E : dq_oe wrtap dfi (t + 1) || dqs_postamble wrtap dfi (t + 1) = true).
      { rewrite dqs_postamble_delay.
        destruct (Nat.leb_spec (wrtap + 2) (t + 1)); [| lia].
        replace (t + 1 - (wrtap + 2))%nat with (t - (wrtap + 1))%nat by lia.
        rewrite Hoe'. cbn [andb]. apply orb_negb_r. }
      rewrite <- orb_assoc, E. rewrite !orb_true_r. reflexivity.
  - rewrite dqs_preamble_delay, <- andb_assoc, andb_negb_l. apply andb_false_r.
  - rewrite dqs_postamble_delay, <- andb_assoc, andb_negb_l. apply andb_false_r.
  - intros Hw. unfold dqs_oe. rewrite Hw. cbn [orb].
    rewrite dqs_preamble_delay, dqs_postamble_delay, dq_oe_delay.
    destruct (if (wrtap <=? t)%nat then _ else false),
             (if (wrtap + 1 <=? t)%nat then _ else false),
             (if (wrtap + 2 <=? t)%nat then _ else false); reflexivity.
Qed.

(** ** DQ: gathering the phases into lanes and scattering them back *)

Lemma testbit_Cat_bits_map (f : nat -> bool) (n j : nat) :
  Z.testbit (Cat_bits (map f (seq 0 n))) (Z.of_nat j)
  = if (j <? n)%nat then f j else false.
Proof.
  rewrite testbit_Cat_bits. destruct (Nat.ltb_spec j n).
  - now apply nth_map_seq.
  - apply nth_overflow. rewrite length_map, length_seq. lia.
Qed.

(** Feeding the lanes' write words straight back as the lanes' read words
    returns every phase's [wrdata] as its [rddata]: the gather of source
    lines 225-228 and the scatter of lines 248-249 are inverse to each
    other, for every data width. *)
Theorem dq_gather_scatter (databits : nat) (wrdata : list Z) (phase : nat) :
  (0 < databits)%nat ->
  (phase < 8)%nat ->
  0 <= nth phase wrdata 0 < 2 ^ Z.of_nat (2 * databits) ->
  dfi_rddata databits (map (dq_lane_i databits wrdata) (seq 0 databits)) phase
  = nth phase wrdata 0.
Proof.
  intros Hd Hp Hw. apply Z.bits_inj'. intros k Hk.
  rewrite <- (Z2Nat.id k Hk). set (j := Z.to_nat k).
  unfold dfi_rddata. rewrite testbit_Cat_bits_map.
  destruct (Nat.ltb_spec j (2 * databits)) as [Hj | Hj].
  - assert (Hm : (j mod databits < databits)%nat) by (apply Nat.mod_upper_bound; lia).
    assert (Hq : (j / databits < 2)%nat) by (apply Nat.Div0.div_lt_upper_bound; lia).
    rewrite nth_map_seq by exact Hm.
    unfold dq_lane_i. change (Z.to_nat (2 * nphases)) with 16%nat.
    rewrite testbit_Cat_bits_map.
    destruct (Nat.ltb_spec (2 * phase + j / databits) 16); [| lia].
    replace ((2 * phase + j / databits) / 2)%nat with phase.
    2:{ apply (Nat.div_unique _ _ _ (j / databits)); lia. }
    replace ((2 * phase + j / databits) mod 2)%nat with (j / databits)%nat.
    2:{ apply (Nat.mod_unique _ _ phase); lia. }
    f_equal. f_equal.
    pose proof (Nat.div_mod_eq j databits). lia.
  - symmetry. apply (testbit_above (Z.of_nat (2 * databits))); [exact Hw | lia].
Qed.

Lemma dq_gather_scatter_witness :
  dfi_rddata 16 (map (dq_lane_i 16 [1; 2; 3; 4; 5; 6; 7; 4294967295])
                     (seq 0 16)) 7
  = 4294967295.
Proof.
  apply (dq_gather_scatter 16 [1; 2; 3; 4; 5; 6; 7; 4294967295] 7);
    [lia | lia | vm_compute; split; congruence].
Defined.

Example dq_lane_i_ex :
  map (dq_lane_i 16 [1; 2; 3; 4; 5; 6; 7; 4294967295]) [0; 1; 15]%nat
  = [53521; 54292; 49152].
Proof. vm_compute. reflexivity. Qed.

(** ** DoubleRateLPDDR4PHY: the width assertions of [ser] and [des] *)

Lemma for_each_repeat {A B : Type} (f : A -> option B) (x : A) (y : B) (n : nat) :
  f x = Some y -> for_each f (repeat x n) = Some (repeat y n).
Proof.
  intros H. induction n as [| n IH]; cbn [repeat for_each]; [reflexivity |].
  now rewrite H, IH.
Qed.

Lemma combine_map_repeat (w w' : Z) (n : nat) :
  combine (map Sig (repeat w n)) (map Sig (repeat w' n))
  = repeat (Sig w, Sig w') n.
Proof. induction n as [| n IH]; cbn; [reflexivity | now rewrite IH]. Qed.

(** [apply] on two lists of [n] signals of widths [w] and [w']. *)
Lemma apply_Sigs (fn : Pads -> Pads -> option Wiring) (w w' : Z) (n : nat)
      (y : Wiring) :
  fn (Sig w) (Sig w') = Some y ->
  apply_ fn (Sigs (repeat w n)) (Sigs (repeat w' n)) = Some (repeat y n).
Proof.
  intros H. unfold apply_. cbn [isinstance_list negb iter].
  rewrite combine_map_repeat. now apply for_each_repeat.
Qed.

Lemma apply_Sig (fn : Pads -> Pads -> option Wiring) (w w' : Z) :
  apply_ fn (Sig w) (Sig w')
  = match fn (Sig w) (Sig w') with Some y => Some [y] | None => None end.
Proof. reflexivity. Qed.

Lemma ser_half (m : Z) :
  ser (Sig (2 * m)) (Sig m) = Some (Serializer (2 * m) m).
Proof.
  unfold ser. cbn [len]. rewrite (Z.mul_comm 2 m), Z.div_mul by discriminate.
  now rewrite Z.eqb_refl.
Qed.

Lemma des_half (m : Z) :
  des (Sig m) (Sig (2 * m)) = Some (Deserializer m (2 * m)).
Proof.
  unfold des. cbn [len]. rewrite (Z.mul_comm 2 m), Z.div_mul by discriminate.
  now rewrite Z.eqb_refl.
Qed.

(** For a base PHY with an even number [2*m] of phases no assertion of
    [ser] or [des] fails, for any data width: the loop delays the three
    output enables, serialises every output 2:1 and deserialises every
    input 1:2, in the order of the attributes.  With an odd number of
    phases the very first [ser] (of [clk]) fails its assertion. *)
Theorem DoubleRate_wiring_widths (m databits : Z) :
  0 <= m ->
  DoubleRate_wiring (2 * m) databits
  = Some ([Serializer (4 * m) (2 * m)]
          ++ repeat (Serializer (2 * m) m) 4
          ++ repeat (Serializer (2 * m) m) 6
          ++ repeat (Serializer (4 * m) (2 * m)) 2
          ++ repeat (Deserializer (2 * m) (4 * m)) 2
          ++ [Delayed 1 1]
          ++ repeat (Serializer (4 * m) (2 * m)) (Z.to_nat databits)
          ++ repeat (Deserializer (2 * m) (4 * m)) (Z.to_nat databits)
          ++ [Delayed 1 1]
          ++ repeat (Serializer (4 * m) (2 * m)) 2
          ++ repeat (Deserializer (2 * m) (4 * m)) 2
          ++ [Delayed 1 1]) /\
  DoubleRate_wiring (2 * m + 1) databits = None.
Proof.
  intros Hm. split.
  - unfold DoubleRate_wiring.
    rewrite (Z.mul_comm 2 m), Z.div_mul by discriminate.
    rewrite (Z.mul_comm m 2).
    replace (4 * m) with (2 * (2 * m)) by lia.
    pose proof (ser_half m) as S1. pose proof (ser_half (2 * m)) as S2.
    pose proof (des_half (2 * m)) as D2.
    unfold LPDDR4Output.
    cbn [for_each wire getattr String.eqb Ascii.eqb Bool.eqb endswith
         String.length substring Nat.leb Nat.sub andb len].
    rewrite !apply_Sig, S1, S2.
    rewrite (apply_Sigs ser _ _ 6 _ S1).
    rewrite !(apply_Sigs ser _ _ 2 _ S2).
    rewrite !(apply_Sigs des _ _ 2 _ D2).
    rewrite (apply_Sigs ser _ _ (Z.to_nat databits) _ S2).
    rewrite (apply_Sigs des _ _ (Z.to_nat databits) _ D2).
    cbn [option_map concat app repeat]. rewrite ?app_nil_r. reflexivity.
  - unfold DoubleRate_wiring, LPDDR4Output.
    cbn [for_each wire getattr String.eqb Ascii.eqb Bool.eqb endswith
         String.length substring Nat.leb Nat.sub andb].
    rewrite apply_Sig. unfold ser. cbn [len].
    replace (2 * ((2 * m + 1) / 2) =? 2 * (2 * m + 1) / 2) with false;
      [reflexivity |].
    symmetry. apply Z.eqb_neq.
    Z.to_euclidean_division_equations. lia.
Qed.

Lemma DoubleRate_wiring_widths_witness :
  DoubleRate_wiring 8 16
  = Some ([Serializer 16 8]
          ++ repeat (Serializer 8 4) 4
          ++ repeat (Serializer 8 4) 6
          ++ repeat (Serializer 16 8) 2
          ++ repeat (Deserializer 8 16) 2
          ++ [Delayed 1 1]
          ++ repeat (Serializer 16 8) 16
          ++ repeat (Deserializer 8 16) 16
          ++ [Delayed 1 1]
          ++ repeat (Serializer 16 8) 2
          ++ repeat (Deserializer 8 16) 2
          ++ [Delayed 1 1]) /\
  DoubleRate_wiring 9 16 = None.
Proof. apply (DoubleRate_wiring_widths 4 16). lia. Defined.
